(** * Brain Image Library inventory report: the data pipeline of
    [streamlit_app.py], embedded and checked against its specification.

    The script loads a JSON inventory, derives two columns (collection code
    and human-readable size), sorts by file count, and renders a full table,
    a per-collection table and a pie chart.  Each part of the script is
    embedded below under the name it has in the source. *)

From Stdlib Require Import List Bool Arith ZArith Lia.
From Stdlib Require Import Ascii String.
From Stdlib Require Import Permutation Sorted.
From Stdlib Require Import DecimalString DecimalN.
From Stdlib Require OrderedTypeEx.
Import ListNotations.

Set Implicit Arguments.

(* ================================================================== *)
(** * Definitions *)
(* ================================================================== *)

(** ** Strings

    A Python [str] is modelled by [string], the sequence of the bytes of its
    UTF-8 encoding.  The pattern of [extract_collection] is pure ASCII, so
    matching on bytes and on code points find the same group. *)

Module Str.

Open Scope string_scope.

(** [s.startswith(p)] together with the rest of [s] after [p]. *)
Fixpoint strip_prefix (p s : string) : option string :=
  match p with
  | EmptyString => Some s
  | String a p' =>
      match s with
      | EmptyString => None
      | String b s' => if Ascii.eqb a b then strip_prefix p' s' else None
      end
  end.

End Str.

(** ** Collection extraction (source lines 33-35)

    [re.search(r"/bil/data/([a-f0-9]{2})/", path)]: the pattern is a literal
    root, two characters of the class [[a-f0-9]], and a closing slash. *)

Open Scope string_scope.

(** The character class [[a-f0-9]]: lower-case hexadecimal digits only. *)
Definition hex_class (c : ascii) : bool :=
  let n := nat_of_ascii c in
  ((97 <=? n) && (n <=? 102) || (48 <=? n) && (n <=? 57))%nat.

Definition root_literal : string := "/bil/data/".

(** The pattern anchored at the start of [s]; the result is [group(1)]. *)
Definition match_here (s : string) : option string :=
  match Str.strip_prefix root_literal s with
  | Some (String a (String b (String c _))) =>
      if hex_class a && hex_class b && Ascii.eqb c "/"
      then Some (String a (String b EmptyString))
      else None
  | _ => None
  end.

(** [re.search]: the pattern is tried at every offset, left to right, and the
    first offset where it matches wins. *)
Fixpoint re_search (s : string) : option string :=
  match match_here s with
  | Some g => Some g
  | None =>
      match s with
      | EmptyString => None
      | String _ s' => re_search s'
      end
  end.

(** [match.group(1) if match else None] *)
Definition extract_collection (path : string) : option string :=
  re_search path.

(** A two-character code whose characters are both in the class. *)
Definition hex_pair (c : string) : Prop :=
  exists a b, c = String a (String b EmptyString)
              /\ hex_class a = true /\ hex_class b = true.

(** [path] reads [pre ++ "/bil/data/" ++ c ++ "/" ++ post]: the pattern matches
    at offset [length pre] with group [c]. *)
Definition rooted_at (path pre c post : string) : Prop :=
  path = pre ++ root_literal ++ c ++ "/" ++ post /\ hex_pair c.

(** The spec's looser form [.../<two-hex-chars>/...]: a two-character
    hexadecimal segment between two slashes, anywhere in the path. *)
Definition hex_segment (path c : string) : Prop :=
  exists pre post, path = pre ++ "/" ++ c ++ "/" ++ post /\ hex_pair c.

(** No match of the pattern starts to the left of offset [length pre]. *)
Definition leftmost (path pre : string) : Prop :=
  forall pre' c' post',
    rooted_at path pre' c' post' -> String.length pre <= String.length pre'.

Open Scope list_scope.

(** ** Size formatting (source line 40)

    [humanize.naturalsize(value, binary=True)] with the default format
    ["%.1f"], as the library's loop over the unit suffixes.  The library
    divides in floating point; sizes are integers far below [2^53], and the
    quotient of such an integer by a power of 1024 is an exact double, so the
    division is modelled exactly, as the fraction [num/den], and ["%.1f"] as
    the correctly rounded (ties to even) decimal with one digit after the
    point. *)

Module Humanize.

Open Scope Z_scope.

Definition suffixes_binary : list string :=
  [" KiB"; " MiB"; " GiB"; " TiB"; " PiB"; " EiB"; " ZiB"; " YiB"; " RiB"; " QiB"]%string.

Definition base : Z := 1024.

(** Decimal digits of a natural number, no leading zero, ["0"] for zero. *)
Definition digits (n : N) : string := NilZero.string_of_uint (N.to_uint n).

(** The sign a negative number is printed with. *)
Definition sign (z : Z) : string := if z <? 0 then "-"%string else EmptyString.

(** ["%d" % z] *)
Definition fmt_d (z : Z) : string := (sign z ++ digits (Z.abs_N z))%string.

(** [num/den] rounded to the nearest integer, ties to the even one
    ([0 <= num], [0 < den]). *)
Definition round_half_even (num den : Z) : Z :=
  let q := num / den in
  let r := num mod den in
  if 2 * r <? den then q
  else if den <? 2 * r then q + 1
  else if Z.even q then q else q + 1.

(** The number of tenths that ["%.1f" % (|num|/den)] prints. *)
Definition tenths (num den : Z) : Z := round_half_even (10 * Z.abs num) den.

(** ["%.1f" % (num/den)] for [0 < den]. *)
Definition fmt_1f (num den : Z) : string :=
  let t := tenths num den in
  (sign num ++ digits (Z.to_N (t / 10)) ++ "." ++ digits (Z.to_N (t mod 10)))%string.

(** The loop over the suffixes: [unit = base ** (i + 2)]; the first unit
    above [abs_bytes] wins, and past the last suffix the last unit is used. *)
Fixpoint naturalsize_units (bytes_ : Z) (i : nat) (suffix : list string) : string :=
  match suffix with
  | [] => EmptyString
  | s :: rest =>
      let unit := base ^ (Z.of_nat i + 2) in
      match rest with
      | [] => (fmt_1f (base * bytes_) unit ++ s)%string
      | _ :: _ =>
          if Z.abs bytes_ <? unit
          then (fmt_1f (base * bytes_) unit ++ s)%string
          else naturalsize_units bytes_ (S i) rest
      end
  end.

Definition naturalsize (value : Z) : string :=
  let bytes_ := value in
  let abs_bytes := Z.abs bytes_ in
  if abs_bytes =? 1 then (fmt_d bytes_ ++ " Byte")%string
  else if abs_bytes <? base then (fmt_d bytes_ ++ " Bytes")%string
  else naturalsize_units bytes_ 0 suffixes_binary.

(** *** Reading a formatted size back

    The magnitude a formatted size expresses, in tenths of a byte: the
    printed number times the value of its unit. *)

(** [s.partition(c)]: the text before the first [c] and the text after it. *)
Fixpoint partition_at (c : ascii) (s : string) : option (string * string) :=
  match s with
  | EmptyString => None
  | String x s' =>
      if Ascii.eqb x c then Some (EmptyString, s')
      else match partition_at c s' with
           | Some (l, r) => Some (String x l, r)
           | None => None
           end
  end.

(** Whether the character [c] occurs in [s]. *)
Fixpoint occurs (c : ascii) (s : string) : bool :=
  match s with
  | EmptyString => false
  | String x s' => Ascii.eqb x c || occurs c s'
  end.

Definition number_of_digits (s : string) : option Z :=
  match NilZero.uint_of_string s with
  | Some d => Some (Z.of_N (N.of_uint d))
  | None => None
  end.

(** The exponent [k] of a unit name: the unit is worth [1024^k] bytes. *)
Fixpoint unit_index (u : string) (i : nat) (suffix : list string) : option nat :=
  match suffix with
  | [] => None
  | s :: rest => if String.eqb (String " " u) s then Some i else unit_index u (S i) rest
  end.

Definition unit_exponent (u : string) : option nat :=
  if String.eqb u "Byte" || String.eqb u "Bytes" then Some O
  else unit_index u 1%nat suffixes_binary.

(** Tenths printed by a non-negative number, ["12"] or ["12.3"]. *)
Definition printed_tenths (num : string) : option Z :=
  match partition_at "." num with
  | Some (ip, fp) =>
      match number_of_digits ip, number_of_digits fp with
      | Some a, Some b => if (b <? 10)%Z then Some (10 * a + b) else None
      | _, _ => None
      end
  | None =>
      match number_of_digits num with
      | Some a => Some (10 * a)
      | None => None
      end
  end.

(** The printed number and the exponent of the unit. *)
Definition parse_size (s : string) : option (Z * nat) :=
  match partition_at " " s with
  | Some (num, u) =>
      match printed_tenths num, unit_exponent u with
      | Some t, Some k => Some (t, k)
      | _, _ => None
      end
  | None => None
  end.

Definition magnitude_tenths (s : string) : option Z :=
  match parse_size s with
  | Some (t, k) => Some (t * base ^ Z.of_nat k)
  | None => None
  end.

(** What a formatted non-negative size [v] reads as: [t] tenths of the unit
    [1024^k]. *)
Definition size_parts (v t : Z) (k : nat) : Prop :=
  (k = 0%nat /\ v < base /\ t = 10 * v)
  \/ ((1 <= k <= 10)%nat
      /\ base ^ Z.of_nat k <= v
      /\ ((k < 10)%nat -> v < base ^ (Z.of_nat k + 1))
      /\ t = round_half_even (10 * (base * v)) (base ^ (Z.of_nat k + 1))).

End Humanize.

(** ** Dataset records (source lines 29-30)

    One object of the JSON array: the four fields the script reads.  A JSON
    [null] size is [None]. *)

Record record : Type := mk_record {
  bildid : string;
  bildirectory : string;
  number_of_files : Z;
  size : option Z
}.

(** A row of [df] once the two derived columns are added (lines 37, 40). *)
Record row : Type := mk_row {
  source : record;
  collection : option string;
  pretty_size : option string
}.

(** [lambda s: humanize.naturalsize(s, binary=True) if pd.notnull(s) else None] *)
Definition pretty_size_of (s : option Z) : option string :=
  match s with
  | Some v => Some (Humanize.naturalsize v)
  | None => None
  end.

Definition add_columns (r : record) : row :=
  {| source := r;
     collection := extract_collection (bildirectory r);
     pretty_size := pretty_size_of (size r) |}.

(** [df] after line 40. *)
Definition dataframe (data : list record) : list row := map add_columns data.

(** The four columns shown in both tables, under their display names. *)
Record view_row : Type := mk_view {
  Collection : option string;
  Brain_ID : string;
  Number_of_Files : Z;
  Size : option string
}.

(** [df[["collection", "bildid", "number_of_files", "pretty_size"]].rename(...)] *)
Definition view (r : row) : view_row :=
  {| Collection := collection r;
     Brain_ID := bildid (source r);
     Number_of_Files := number_of_files (source r);
     Size := pretty_size r |}.

(** ** The pandas operations the script uses *)

Module Pandas.

Section Lists.
Variable A : Type.

(** [Series.dropna()] *)
Fixpoint dropna (l : list (option A)) : list A :=
  match l with
  | [] => []
  | Some x :: t => x :: dropna t
  | None :: t => dropna t
  end.

(** [df[mask]]: the rows whose mask entry is [True], in the order of [df]. *)
Fixpoint boolean_index (l : list A) (mask : list bool) : list A :=
  match l, mask with
  | x :: l', b :: mask' =>
      if b then x :: boolean_index l' mask' else boolean_index l' mask'
  | _, _ => []
  end.

(** [take(indexer)]: the rows at the given positions, in the order of the
    indexer.  (A position out of range raises in pandas; an indexer made by
    [argsort] has none.) *)
Fixpoint take (l : list A) (indexer : list nat) : list A :=
  match indexer with
  | [] => []
  | i :: rest =>
      match nth_error l i with
      | Some x => x :: take l rest
      | None => take l rest
      end
  end.

End Lists.

(** [Series.unique()]: the distinct values, in order of first appearance. *)
Fixpoint unique (l : list string) : list string :=
  match l with
  | [] => []
  | x :: t => x :: filter (fun y => negb (String.eqb y x)) (unique t)
  end.

(** [series == value] on an object column: an absent entry compares unequal
    to everything, and a comparison against [None] is false everywhere. *)
Definition eq_scalar (entry value : option string) : bool :=
  match entry, value with
  | Some a, Some b => String.eqb a b
  | _, _ => false
  end.

(** *** Sorting

    [sort_values] is called with the default [kind="quicksort"]: it sorts
    through [numpy.argsort], of which only the contract is known: the
    positions of the keys in non-decreasing order of key. *)

Section Sorting.
Variable argsort : list Z -> list nat.

(** [nargsort(items, kind, ascending=False, na_position="last")] on keys
    without missing values: the keys are reversed, sorted ascending, and the
    resulting indexer reversed. *)
Definition nargsort_descending (items : list Z) : list nat :=
  let idx := seq 0 (List.length items) in
  let non_nans := rev items in
  let non_nan_idx := rev idx in
  let indexer := take non_nan_idx (argsort non_nans) in
  rev indexer.

(** [frame.sort_values(by=key, ascending=False)] *)
Definition sort_values_descending (B : Type) (key : B -> Z) (frame : list B) : list B :=
  take frame (nargsort_descending (map key frame)).

End Sorting.

(** An [argsort] by insertion: position [i] is placed in front of the first
    later position [j] with [before keys[i] keys[j]].  With [Z.leb] equal
    keys keep their order; with [Z.ltb] they come out reversed. *)
Section Insertion.
Variable before : Z -> Z -> bool.
Variable keys : list Z.

Definition key_at (i : nat) : Z := nth i keys 0%Z.

Fixpoint insert_index (i : nat) (placed : list nat) : list nat :=
  match placed with
  | [] => [i]
  | j :: rest =>
      if before (key_at i) (key_at j) then i :: placed
      else j :: insert_index i rest
  end.

Definition argsort_insertion : list nat :=
  fold_right insert_index [] (seq 0 (List.length keys)).

End Insertion.

(** What [numpy.argsort] promises for every kind of sort. *)
Definition argsort_contract (argsort : list Z -> list nat) : Prop :=
  forall keys,
    Permutation (argsort keys) (seq 0 (List.length keys))
    /\ Sorted Z.le (take keys (argsort keys)).

End Pandas.

(** [sorted(iterable)] on strings: ascending, by character code. *)
Fixpoint insert_sorted (x : string) (l : list string) : list string :=
  match l with
  | [] => [x]
  | y :: t => if String.leb x y then x :: l else y :: insert_sorted x t
  end.

Definition sorted (l : list string) : list string :=
  fold_right insert_sorted [] l.

(** ** The pipeline (source lines 43-92) *)

Section Pipeline.
Variable argsort : list Z -> list nat.

Definition file_count (r : row) : Z := number_of_files (source r).

(** Line 43: [df.sort_values(by="number_of_files", ascending=False)] *)
Definition df_sorted (df : list row) : list row :=
  Pandas.sort_values_descending argsort file_count df.

(** Lines 46-51 *)
Definition preview_df (df : list row) : list view_row :=
  map view (df_sorted df).

(** Line 61: [sorted(df["collection"].dropna().unique())] *)
Definition unique_collections (df : list row) : list string :=
  sorted (Pandas.unique (Pandas.dropna (map collection df))).

(** Line 62: [st.selectbox] hands back the option the user picked, the first
    one by default, and [None] when there is no option. *)
Definition selectbox (options : list string) (choice : nat) : option string :=
  nth_error options choice.

(** [df[df["collection"] == selected_collection]] *)
Definition in_collection (df : list row) (selected_collection : option string) : list row :=
  Pandas.boolean_index df
    (map (fun r => Pandas.eq_scalar (collection r) selected_collection) df).

(** Lines 66-71 *)
Definition filtered_df (df : list row) (selected_collection : option string) : list view_row :=
  map view (in_collection df selected_collection).

(** Lines 77-78: a series of file counts indexed by identifier, restricted
    to the positive counts and sorted descending. *)
Definition pie_data (df : list row) (selected_collection : option string) : list (string * Z) :=
  let series :=
    map (fun r => (bildid (source r), file_count r))
        (in_collection df selected_collection) in
  let positive :=
    Pandas.boolean_index series (map (fun e => 0 <? snd e)%Z series) in
  Pandas.sort_values_descending argsort snd positive.

(** The rows of [frame] whose key is [k], in the order of [frame]. *)
Definition with_key (B : Type) (key : B -> Z) (k : Z) (frame : list B) : list B :=
  filter (fun r => Z.eqb (key r) k) frame.

(** The full-table sort as the spec words it: descending, and rows of equal
    file count in their input order. *)
Definition descending_and_stable : Prop :=
  forall df : list row,
    Sorted (fun a b => (file_count a >= file_count b)%Z) (df_sorted df)
    /\ forall k, with_key file_count k (df_sorted df) = with_key file_count k df.

(** Line 91: [list(pie_data.index)] *)
Definition labels (pie : list (string * Z)) : list string := map fst pie.

End Pipeline.

(** Line 92: [(len(labels) - 1) // 25 + 1], with Python's floor division. *)
Definition num_cols (len_labels : Z) : Z := ((len_labels - 1) / 25 + 1)%Z.

(** How matplotlib lays [n] legend entries out in [ncol] columns: the entries
    are split as evenly as possible, the larger columns first. *)
Definition legend_columns (n ncol : nat) : list nat :=
  repeat (n / ncol + 1)%nat (n mod ncol) ++ repeat (n / ncol)%nat (ncol - n mod ncol).

(** [ceil(n / m)], the number of columns of at most [m] entries that [n]
    entries need. *)
Definition ceil_div (n m : Z) : Z := (- ((- n) / m))%Z.


(** ** The run of the script (source lines 10-107)

    Streamlit draws an element when its call returns, and what is drawn
    stays: a run is modelled by the list of elements drawn so far, threaded
    through the calls, with an exception stopping the block it is raised in. *)

Record figure : Type := mk_figure {
  wedges : list (string * Z);
  legend_labels : list string;
  legend_ncol : Z
}.

Inductive element : Type :=
  | st_title (body : string)
  | st_markdown (body : string)
  | st_caption (body : string)
  | st_subheader (body : string)
  | st_dataframe (data : list view_row)
  | st_selectbox (label : string) (options : list string)
  | st_pyplot (fig : figure)
  | st_error (body : string).

(** A raised exception, with the text [str(e)] of its message. *)
Inductive exception : Type := Exception (message : string).

Definition message_of (e : exception) : string :=
  match e with Exception m => m end.

Module App.

Definition t (A : Type) : Type := list element -> list element * (exception + A).

Definition ret (A : Type) (x : A) : t A := fun ui => (ui, inr x).

Definition bind (A B : Type) (m : t A) (k : A -> t B) : t B :=
  fun ui =>
    match m ui with
    | (ui', inr x) => k x ui'
    | (ui', inl e) => (ui', inl e)
    end.

Definition raise (A : Type) (e : exception) : t A := fun ui => (ui, inl e).

(** The outcome of a library call. *)
Definition call (A : Type) (outcome : exception + A) : t A := fun ui => (ui, outcome).

(** A Streamlit call: the element is added below what is already drawn. *)
Definition draw (e : element) : t unit := fun ui => (ui ++ [e], inr tt).

(** [try: body except Exception as e: handler(e)] *)
Definition try_except (body : t unit) (handler : exception -> t unit) : t unit :=
  fun ui =>
    match body ui with
    | (ui', inl e) => handler e ui'
    | (ui', inr tt) => (ui', inr tt)
    end.

End App.

Declare Scope app_scope.
Delimit Scope app_scope with app.
Notation "x <- m ;; k" := (App.bind m (fun x => k))
  (at level 61, m at next level, right associativity) : app_scope.
Notation "m ;; k" := (App.bind m (fun _ => k))
  (at level 61, right associativity) : app_scope.

(** The library calls of the [try] block that work on the inventory, by
    source line. *)
Inductive stage : Type :=
  | DataFrame_30      (* pd.DataFrame(data) *)
  | collection_37     (* df["bildirectory"].apply(extract_collection) *)
  | pretty_size_40    (* df["size"].apply(...) *)
  | sort_values_43    (* df.sort_values(by="number_of_files", ...) *)
  | preview_46        (* df_sorted[[...]].rename(...) *)
  | unique_61         (* sorted(df["collection"].dropna().unique()) *)
  | filtered_66       (* df[df["collection"] == ...][[...]].rename(...) *)
  | pie_select_77     (* df[...].set_index("bildid")["number_of_files"] *)
  | pie_positive_78   (* pie_data[pie_data > 0].sort_values(...) *)
  | plot_80.          (* plt.subplots, ax3.pie, ax3.legend *)

Record response : Type := mk_response {
  status_code : Z;
  reason : string;
  url : string;
  body : string
}.

(** What a run depends on.  The records are typed, but the inventory is
    untyped JSON: a field of another type, or a missing one, makes the
    library call that meets it raise.  [raises s = Some e] says that on this
    inventory the call of stage [s] raises [e]; e.g. file counts given as
    JSON strings raise [TypeError] at the comparison of line 78 and nowhere
    before.  The Streamlit calls themselves are taken not to raise. *)
Record world : Type := mk_world {
  today_str : string;
  requests_get : exception + response;
  json : string -> exception + list record;
  raises : stage -> option exception;
  argsort : list Z -> list nat;
  choice : nat
}.

Section Run.
Variable w : world.
Local Open Scope app_scope.
Local Open Scope string_scope.

Definition URL : string :=
  "https://download.brainimagelibrary.org//inventory/daily/reports/today.json".

(** [response.raise_for_status()]: a 4xx or 5xx status raises [HTTPError]
    with the message requests builds for it. *)
Definition http_error_msg (r : response) : string :=
  Humanize.fmt_d (status_code r)
  ++ (if (status_code r <? 500)%Z then " Client Error: " else " Server Error: ")
  ++ reason r ++ " for url: " ++ url r.

Definition raise_for_status (r : response) : App.t unit :=
  if ((400 <=? status_code r) && (status_code r <? 600))%Z
  then App.raise unit (Exception (http_error_msg r))
  else App.ret tt.

(** Stage [s] runs through unless the inventory makes it raise. *)
Definition run_stage (s : stage) : App.t unit :=
  match raises w s with
  | Some e => App.raise unit e
  | None => App.ret tt
  end.

Definition shown (c : option string) : string :=
  match c with Some s => s | None => "None" end.

(** Lines 10-24: drawn before the [try] block (pictographs left out). *)
Definition preamble : list element :=
  [ st_title "Brain Image Library Inventory Report";
    st_markdown "The **Brain Image Library (BIL)** is a national public resource ...";
    st_markdown ("### Report Date: " ++ today_str w);
    st_caption ("Loading data from: " ++ URL) ].

(** Lines 27-104: the body of the [try] block. *)
Definition try_body : App.t unit :=
  response <- App.call (requests_get w) ;;
  raise_for_status response ;;
  data <- App.call (json w (body response)) ;;
  run_stage DataFrame_30 ;;
  run_stage collection_37 ;;
  run_stage pretty_size_40 ;;
  let df := dataframe data in
  run_stage sort_values_43 ;;
  run_stage preview_46 ;;
  App.draw (st_subheader "Preview: Sorted by Number of Files (Descending)") ;;
  App.draw (st_dataframe (preview_df (argsort w) df)) ;;
  App.draw (st_subheader "Collections") ;;
  run_stage unique_61 ;;
  let options := unique_collections df in
  App.draw (st_selectbox "Select a Collection:" options) ;;
  let selected_collection := selectbox options (choice w) in
  App.draw (st_markdown ("You selected: **" ++ shown selected_collection ++ "**")) ;;
  run_stage filtered_66 ;;
  App.draw (st_dataframe (filtered_df df selected_collection)) ;;
  App.draw (st_subheader "File Distribution in Selected Collection") ;;
  run_stage pie_select_77 ;;
  run_stage pie_positive_78 ;;
  let pie := pie_data (argsort w) df selected_collection in
  run_stage plot_80 ;;
  let fig := {| wedges := pie;
                legend_labels := labels pie;
                legend_ncol := num_cols (Z.of_nat (List.length (labels pie))) |} in
  App.draw (st_pyplot fig).

(** Lines 106-107 *)
Definition except_handler (e : exception) : App.t unit :=
  App.draw (st_error ("Failed to load or process data: " ++ message_of e)).

Definition app : App.t unit :=
  fun ui => App.try_except try_body except_handler (ui ++ preamble)%list.

(** What the user sees at the end of the run. *)
Definition rendered : list element := fst (app []).

(** The [try] block raised. *)
Definition raised : Prop := exists ui e, try_body preamble = (ui, inl e).

End Run.

Definition is_error (e : element) : bool :=
  match e with st_error _ => true | _ => false end.

Definition is_table (e : element) : bool :=
  match e with st_dataframe _ => true | _ => false end.

Definition is_chart (e : element) : bool :=
  match e with st_pyplot _ => true | _ => false end.

(** The stages that come before the first table is drawn (line 55). *)
Definition before_first_table (s : stage) : bool :=
  match s with
  | DataFrame_30 | collection_37 | pretty_size_40 | sort_values_43 | preview_46 => true
  | _ => false
  end.

(** The fetch, the parse, or a stage ahead of the first table raises. *)
Definition raises_before_first_table (w : world) : Prop :=
  match requests_get w with
  | inl _ => True
  | inr r =>
      (400 <= status_code r < 600)%Z
      \/ (exists e, json w (body r) = inl e)
      \/ (exists s, before_first_table s = true /\ raises w s <> None)
  end.

(** The error display as the spec words it: whenever the block raises, one
    error message and neither table nor chart. *)
Definition error_without_partial_ui (w : world) : Prop :=
  raised w ->
  List.length (filter is_error (rendered w)) = 1%nat
  /\ existsb is_table (rendered w) = false
  /\ existsb is_chart (rendered w) = false.

(** ** Sample inputs *)

(** The two-record inventory of the spec's scenario. *)
Definition scenario : list record :=
  [ mk_record "A1" "/bil/data/3f/x" 10 (Some 1073741824%Z);
    mk_record "A2" "/bil/data/3f/y" 0 None ].

(** Eighteen records of one collection, all with the same file count. *)
Definition equal_counts : list record :=
  map (fun i => mk_record ("R" ++ Humanize.digits (N.of_nat i)) "/bil/data/3f/x" 5 None)
      (seq 1 18).

(** A run whose fetch comes back with HTTP 500. *)
Definition world_http_500 : world :=
  {| today_str := "November 04, 2026";
     requests_get := inr (mk_response 500 "Internal Server Error" URL EmptyString);
     json := fun _ => inl (Exception "Expecting value: line 1 column 1 (char 0)");
     raises := fun _ => None;
     argsort := Pandas.argsort_insertion Z.leb;
     choice := 0 |}.

(** A run on an inventory whose file counts are JSON strings: everything
    goes through until the counts are compared with [0] at line 78. *)
Definition world_late_error : world :=
  {| today_str := "November 04, 2026";
     requests_get := inr (mk_response 200 "OK" URL "[{...}]");
     json := fun _ => inr [mk_record "A1" "/bil/data/3f/x" 10 (Some 1073741824%Z)];
     raises := fun s =>
       match s with
       | pie_positive_78 =>
           Some (Exception "'>' not supported between instances of 'str' and 'int'")
       | _ => None
       end;
     argsort := Pandas.argsort_insertion Z.leb;
     choice := 0 |}.

(** A run on the inventory of the scenario, the first collection selected. *)
Definition world_scenario : world :=
  {| today_str := "November 04, 2026";
     requests_get := inr (mk_response 200 "OK" URL "[{...}, {...}]");
     json := fun _ => inr scenario;
     raises := fun _ => None;
     argsort := Pandas.argsort_insertion Z.leb;
     choice := 0 |}.

(** ** Further definitions *)

(** The source line of the library call of a stage. *)
Definition stage_line (s : stage) : nat :=
  match s with
  | DataFrame_30 => 30
  | collection_37 => 37
  | pretty_size_40 => 40
  | sort_values_43 => 43
  | preview_46 => 46
  | unique_61 => 61
  | filtered_66 => 66
  | pie_select_77 => 77
  | pie_positive_78 => 78
  | plot_80 => 80
  end.

(** [x.sum()], by which [ax.pie] divides every wedge size. *)
Definition pie_total (pie : list (string * Z)) : Z :=
  fold_right Z.add 0%Z (map snd pie).

(** The record has no collection code. *)
Definition without_code (r : row) : bool :=
  match collection r with Some _ => false | None => true end.

(* ================================================================== *)
(** * Theorems *)
(* ================================================================== *)

Module StrFacts.
Import Str.

Lemma append_assoc (a b c : string) : (a ++ b) ++ c = a ++ (b ++ c).
Proof. induction a as [|x a IH]; simpl; [reflexivity | now rewrite IH]. Qed.

Lemma strip_prefix_Some (p s rest : string) :
  strip_prefix p s = Some rest <-> s = p ++ rest.
Proof.
  revert s; induction p as [|a p IH]; intros s; simpl.
  - split; congruence.
  - destruct s as [|b s].
    + split; discriminate.
    + destruct (Ascii.eqb_spec a b) as [->|Hne].
      * rewrite IH. split; [now intros -> | now intros [= ->]].
      * split; [discriminate | intros [= E _]; now elim Hne].
Qed.

End StrFacts.

Section ExtractCollection.
Local Open Scope string_scope.

Lemma match_here_Some (s c : string) :
  match_here s = Some c <-> exists post, rooted_at s EmptyString c post.
Proof.
  unfold match_here, rooted_at, hex_pair. split.
  - destruct (Str.strip_prefix root_literal s) as [r|] eqn:E; [|discriminate].
    apply StrFacts.strip_prefix_Some in E.
    destruct r as [|a [|b [|x post]]]; try discriminate.
    destruct (hex_class a) eqn:Ha; [|discriminate].
    destruct (hex_class b) eqn:Hb; [|discriminate].
    destruct (Ascii.eqb_spec x "/") as [->|]; [|discriminate].
    simpl. intros [= <-]. exists post. split; [exact E | eauto].
  - intros (post & E & a & b & -> & Ha & Hb).
    simpl in E. apply (proj2 (StrFacts.strip_prefix_Some root_literal s _)) in E.
    rewrite E. simpl. now rewrite Ha, Hb.
Qed.

Lemma re_search_Some (s c : string) :
  re_search s = Some c <->
  exists pre rest, s = pre ++ rest /\ match_here rest = Some c
    /\ forall pre' rest', s = pre' ++ rest' ->
         String.length pre' < String.length pre -> match_here rest' = None.
Proof.
  induction s as [|x s IH].
  - simpl. split; [discriminate|].
    intros (pre & rest & Hs & Hm & _).
    destruct pre; [|discriminate]. simpl in Hs. subst rest. discriminate.
  - cbn [re_search]. destruct (match_here (String x s)) eqn:E.
    + split.
      * intros [= ->]. exists EmptyString, (String x s). repeat split; auto; simpl; lia.
      * intros (pre & rest & Hs & Hm & Hmin).
        destruct pre as [|y pre].
        -- simpl in Hs. subst rest. congruence.
        -- specialize (Hmin EmptyString (String x s) eq_refl). simpl in Hmin.
           rewrite Hmin in E by lia. discriminate.
    + rewrite IH. split.
      * intros (pre & rest & -> & Hm & Hmin).
        exists (String x pre), rest. repeat split; auto.
        intros [|y pre'] rest' Hs Hlen.
        -- simpl in Hs. now subst rest'.
        -- simpl in Hs. injection Hs as -> Hs. apply (Hmin pre' rest' Hs).
           simpl in Hlen. lia.
      * intros (pre & rest & Hs & Hm & Hmin).
        destruct pre as [|y pre].
        -- simpl in Hs. subst rest. congruence.
        -- simpl in Hs. injection Hs as <- ->. exists pre, rest.
           repeat split; auto. intros pre' rest' Hs Hlen.
           apply (Hmin (String x pre') rest'); simpl; [now rewrite Hs | lia].
Qed.

Lemma re_search_None (s : string) :
  re_search s = None <->
  forall pre rest, s = pre ++ rest -> match_here rest = None.
Proof.
  induction s as [|x s IH].
  - simpl. split; auto. intros _ [|y pre] rest Hs; [|discriminate].
    simpl in Hs. now subst rest.
  - cbn [re_search]. destruct (match_here (String x s)) eqn:E.
    + split; [discriminate|]. intros H.
      specialize (H EmptyString (String x s) eq_refl). congruence.
    + rewrite IH. split.
      * intros H [|y pre] rest Hs.
        -- simpl in Hs. now subst rest.
        -- simpl in Hs. injection Hs as -> Hs. eauto.
      * intros H pre rest Hs. apply (H (String x pre) rest). simpl. now rewrite Hs.
Qed.

Lemma rooted_at_split (path pre c post : string) :
  rooted_at path pre c post <->
  exists rest, path = pre ++ rest /\ match_here rest = Some c
               /\ rest = root_literal ++ c ++ "/" ++ post.
Proof.
  split.
  - intros [E H]. exists (root_literal ++ c ++ "/" ++ post).
    repeat split; auto. apply match_here_Some. exists post. now split.
  - intros (rest & E & Hm & ->). apply match_here_Some in Hm.
    destruct Hm as (post' & _ & Hp). now split.
Qed.

Lemma rooted_at_hex_segment (path pre c post : string) :
  rooted_at path pre c post -> hex_segment path c.
Proof.
  intros [-> H]. exists (pre ++ "/bil/data"), post. split; [|exact H].
  rewrite StrFacts.append_assoc. reflexivity.
Qed.

(** C1, as the code has it: [extract_collection] returns the two-character
    group of the leftmost occurrence of ["/bil/data/" ++ c ++ "/"] with both
    characters of [c] in [[a-f0-9]], and [None] exactly when the path has no
    such occurrence; in particular a path without any two-hex-character
    segment between slashes gives [None]. *)
Theorem extract_collection_rooted (path : string) :
  (forall c, extract_collection path = Some c <->
             exists pre post, rooted_at path pre c post /\ leftmost path pre)
  /\ (extract_collection path = None <->
      forall pre c post, ~ rooted_at path pre c post)
  /\ ((forall c, ~ hex_segment path c) -> extract_collection path = None).
Proof.
  unfold extract_collection.
  assert (HNone : re_search path = None <->
                  forall pre c post, ~ rooted_at path pre c post).
  { rewrite re_search_None. split.
    - intros H pre c post Hr. apply rooted_at_split in Hr.
      destruct Hr as (rest & E & Hm & _). rewrite (H pre rest E) in Hm.
      discriminate.
    - intros H pre rest E. destruct (match_here rest) as [c|] eqn:Hm; auto.
      apply match_here_Some in Hm. destruct Hm as (post & Hr & Hp).
      simpl in Hr. elim (H pre c post). split; [now rewrite E, Hr | exact Hp]. }
  split; [|split; [exact HNone|]].
  - intros c. rewrite re_search_Some. split.
    + intros (pre & rest & E & Hm & Hmin).
      pose proof Hm as Hm'. apply match_here_Some in Hm'.
      destruct Hm' as (post & Hr & Hp). simpl in Hr.
      exists pre, post. split; [split; [now rewrite E, Hr | exact Hp]|].
      intros pre' c' post' Hr'. apply rooted_at_split in Hr'.
      destruct Hr' as (rest' & E' & Hm' & _).
      destruct (Nat.le_gt_cases (String.length pre) (String.length pre'))
        as [Hle|Hlt]; auto.
      rewrite (Hmin pre' rest' E' Hlt) in Hm'. discriminate.
    + intros (pre & post & Hr & Hmin). pose proof Hr as Hr'.
      apply rooted_at_split in Hr'. destruct Hr' as (rest & E & Hm & _).
      exists pre, rest. repeat split; auto.
      intros pre' rest' E' Hlt.
      destruct (match_here rest') as [c'|] eqn:Hm'; auto.
      apply match_here_Some in Hm'. destruct Hm' as (post' & Hr' & Hp').
      simpl in Hr'.
      assert (Hle : String.length pre <= String.length pre').
      { apply (Hmin pre' c' post'). split; [now rewrite E', Hr' | exact Hp']. }
      lia.
  - intros H. apply HNone. intros pre c post Hr.
    exact (H c (rooted_at_hex_segment Hr)).
Qed.

(** The match is found at the documented root and is the leftmost one. *)
Lemma extract_collection_rooted_witness :
  extract_collection "/bil/data/3f/x/bil/data/aa/" = Some "3f"
  /\ extract_collection "/other/path" = None.
Proof.
  split.
  - apply (proj1 (extract_collection_rooted "/bil/data/3f/x/bil/data/aa/")).
    exists EmptyString, "x/bil/data/aa/". split.
    + split; [reflexivity|]. exists "3"%char, "f"%char. now repeat split.
    + intros pre' c' post' _. simpl. lia.
  - apply (proj2 (proj2 (extract_collection_rooted "/other/path"))).
    intros c (pre & post & E & a & b & -> & _).
    destruct pre as [|x0 [|x1 [|x2 [|x3 [|x4 [|x5 [|x6 [|x7 [|x8 [|x9 [|x10 pre]]]]]]]]]]];
      simpl in E; try discriminate.
    destruct pre; discriminate.
Defined.

(** C1 as the spec words it fails: a two-hex-character segment that does not
    sit under ["/bil/data/"] is not extracted. *)
Lemma extract_collection_any_segment_counterexample :
  ~ (forall path c, hex_segment path c -> extract_collection path = Some c).
Proof.
  intros H. specialize (H "/other/3f/x" "3f").
  assert (Hs : hex_segment "/other/3f/x" "3f").
  { exists "/other", "x". split; [reflexivity|].
    exists "3"%char, "f"%char. now repeat split. }
  apply H in Hs. vm_compute in Hs. discriminate.
Qed.

End ExtractCollection.

(** ** Facts on the pandas operations *)

Module PandasFacts.
Import Pandas.

Section Take.
Variables A B : Type.

Lemma take_app (l : list A) (i j : list nat) :
  take l (i ++ j) = take l i ++ take l j.
Proof.
  induction i as [|x i IH]; simpl; [reflexivity|].
  destruct (nth_error l x); simpl; now rewrite IH.
Qed.

Lemma take_rev (l : list A) (i : list nat) : take l (rev i) = rev (take l i).
Proof.
  induction i as [|x i IH]; simpl; [reflexivity|].
  rewrite take_app, IH. simpl.
  destruct (nth_error l x); simpl; [reflexivity | now rewrite app_nil_r].
Qed.

Lemma take_map (f : A -> B) (l : list A) (i : list nat) :
  take (map f l) i = map f (take l i).
Proof.
  induction i as [|x i IH]; simpl; [reflexivity|].
  rewrite nth_error_map. destruct (nth_error l x); simpl; now rewrite IH.
Qed.

Lemma take_seq_shift (x : A) (l : list A) (s n : nat) :
  take (x :: l) (seq (S s) n) = take l (seq s n).
Proof.
  revert s; induction n as [|n IH]; intros s; simpl; [reflexivity|].
  destruct (nth_error l s); now rewrite IH.
Qed.

Lemma take_all (l : list A) : take l (seq 0 (List.length l)) = l.
Proof.
  induction l as [|x l IH]; simpl; [reflexivity|].
  now rewrite take_seq_shift, IH.
Qed.

Lemma take_Permutation (l : list A) (i j : list nat) :
  Permutation i j -> Permutation (take l i) (take l j).
Proof.
  induction 1 as [|x i j _ IH|x y i|i j k _ IH1 _ IH2]; simpl.
  - constructor.
  - destruct (nth_error l x); auto.
  - destruct (nth_error l x), (nth_error l y); auto. constructor.
  - now transitivity (take l j).
Qed.

Lemma take_valid (d : A) (l : list A) (i : list nat) :
  Forall (fun x => x < List.length l) i ->
  take l i = map (fun x => nth x l d) i.
Proof.
  induction 1 as [|x i Hx _ IH]; simpl; [reflexivity|].
  rewrite (nth_error_nth' l d Hx), IH. reflexivity.
Qed.

Lemma nth_error_take_valid (l : list A) (i : list nat) (j : nat) :
  Forall (fun x => x < List.length l) i ->
  nth_error (take l i) j =
  match nth_error i j with Some x => nth_error l x | None => None end.
Proof.
  intros H. revert j. induction H as [|x i Hx _ IH]; intros j; simpl.
  - now destruct j.
  - apply nth_error_Some in Hx. destruct (nth_error l x) eqn:E; [|congruence].
    destruct j; simpl; [now rewrite E | apply IH].
Qed.

(** Taking along [i] and then along [j] is taking along [take i j]. *)
Lemma take_take (l : list A) (i j : list nat) :
  Forall (fun x => x < List.length l) i ->
  take (take l i) j = take l (take i j).
Proof.
  intros H. induction j as [|x j IH]; simpl; [reflexivity|].
  rewrite nth_error_take_valid by exact H.
  destruct (nth_error i x) as [y|]; simpl; [|exact IH].
  destruct (nth_error l y); now rewrite IH.
Qed.

End Take.

Lemma seq_valid (n : nat) : Forall (fun x => x < n) (seq 0 n).
Proof. apply Forall_forall. intros x Hx. apply in_seq in Hx. lia. Qed.

Lemma Permutation_valid (n : nat) (i : list nat) :
  Permutation i (seq 0 n) -> Forall (fun x => x < n) i.
Proof.
  intros H. apply Forall_forall. intros x Hx.
  apply (Permutation_in _ H), in_seq in Hx. lia.
Qed.

Lemma StronglySorted_snoc (R : Z -> Z -> Prop) (l : list Z) (x : Z) :
  StronglySorted R l -> Forall (fun y => R y x) l -> StronglySorted R (l ++ [x]).
Proof.
  induction 1 as [|y l Hl IH Hy]; intros Hx; simpl.
  - repeat constructor.
  - inversion Hx as [|? ? Hyx Hlx]; subst. constructor; [now apply IH|].
    rewrite Forall_app. split; [exact Hy | now repeat constructor].
Qed.

(** Reversing an ascending list gives a descending one. *)
Lemma Sorted_le_rev (l : list Z) : Sorted Z.le l -> Sorted Z.ge (rev l).
Proof.
  intros H. apply Sorted_StronglySorted in H; [|exact Z.le_trans].
  apply StronglySorted_Sorted.
  induction H as [|x l _ IH Hx]; simpl; [constructor|].
  apply StronglySorted_snoc; [exact IH|].
  apply Forall_rev. revert Hx. apply Forall_impl. intros; lia.
Qed.

Lemma Sorted_map (B : Type) (R : Z -> Z -> Prop) (key : B -> Z) (l : list B) :
  Sorted R (map key l) <-> Sorted (fun a b => R (key a) (key b)) l.
Proof.
  induction l as [|x l IH]; simpl.
  - split; constructor.
  - split; intros H; inversion H as [|? ? Hs Hh]; subst;
      (constructor; [now apply IH|]);
      destruct l; simpl in *; constructor; now inversion Hh.
Qed.

(** *** [sort_values] under the contract of [argsort] *)

Section SortValues.
Variable argsort : list Z -> list nat.
Hypothesis argsort_ok : argsort_contract argsort.
Variable B : Type.
Variable key : B -> Z.

Lemma nargsort_descending_Permutation (items : list Z) :
  Permutation (nargsort_descending argsort items) (seq 0 (List.length items)).
Proof.
  unfold nargsort_descending.
  destruct (argsort_ok (rev items)) as [Hp _]. rewrite length_rev in Hp.
  rewrite <- Permutation_rev.
  transitivity (take (rev (seq 0 (List.length items))) (seq 0 (List.length items))).
  - now apply take_Permutation.
  - pose proof (take_all (rev (seq 0 (List.length items)))) as E.
    rewrite length_rev, length_seq in E. rewrite E.
    symmetry. apply Permutation_rev.
Qed.

Lemma nargsort_descending_keys (items : list Z) :
  take items (nargsort_descending argsort items)
  = rev (take (rev items) (argsort (rev items))).
Proof.
  unfold nargsort_descending. rewrite take_rev. f_equal.
  rewrite <- take_take by apply Forall_rev, seq_valid.
  now rewrite (take_rev items), take_all.
Qed.

Lemma sort_values_descending_Permutation (frame : list B) :
  Permutation (sort_values_descending argsort key frame) frame.
Proof.
  unfold sort_values_descending.
  transitivity (take frame (seq 0 (List.length frame))).
  - apply take_Permutation.
    rewrite <- (length_map key frame). apply nargsort_descending_Permutation.
  - now rewrite take_all.
Qed.

Lemma sort_values_descending_Sorted (frame : list B) :
  Sorted (fun a b => (key a >= key b)%Z) (sort_values_descending argsort key frame).
Proof.
  apply Sorted_map. unfold sort_values_descending.
  rewrite <- take_map, nargsort_descending_keys.
  apply Sorted_le_rev, argsort_ok.
Qed.

End SortValues.

(** *** The insertion [argsort] meets the contract, whatever it does with
    equal keys *)

Section InsertionFacts.
Variable before : Z -> Z -> bool.
Hypothesis before_true : forall x y, before x y = true -> (x <= y)%Z.
Hypothesis before_false : forall x y, before x y = false -> (y <= x)%Z.
Variable keys : list Z.

Lemma insert_index_Permutation (i : nat) (placed : list nat) :
  Permutation (insert_index before keys i placed) (i :: placed).
Proof.
  induction placed as [|j rest IH]; simpl; [reflexivity|].
  destruct (before _ _); [reflexivity|].
  rewrite IH. apply perm_swap.
Qed.

Lemma insert_index_Sorted (i : nat) (placed : list nat) :
  Sorted Z.le (map (key_at keys) placed) ->
  Sorted Z.le (map (key_at keys) (insert_index before keys i placed)).
Proof.
  induction placed as [|j rest IH]; simpl; intros H.
  - repeat constructor.
  - destruct (before _ _) eqn:E; simpl.
    + constructor; [exact H|]. constructor. now apply before_true.
    + inversion H as [|? ? Hs Hh]; subst. constructor; [now apply IH|].
      destruct rest as [|k rest]; simpl.
      * constructor. now apply before_false.
      * destruct (before _ (key_at keys k)); simpl; constructor.
        -- now apply before_false.
        -- now inversion Hh.
Qed.

Lemma argsort_insertion_Permutation :
  Permutation (argsort_insertion before keys) (seq 0 (List.length keys)).
Proof.
  unfold argsort_insertion.
  induction (seq 0 (List.length keys)) as [|i l IH]; simpl; [reflexivity|].
  rewrite insert_index_Permutation. now constructor.
Qed.

Lemma argsort_insertion_Sorted :
  Sorted Z.le (take keys (argsort_insertion before keys)).
Proof.
  rewrite (take_valid 0%Z).
  - unfold argsort_insertion.
    induction (seq 0 (List.length keys)) as [|i l IH]; simpl; [constructor|].
    now apply insert_index_Sorted.
  - apply Permutation_valid, argsort_insertion_Permutation.
Qed.

End InsertionFacts.

Lemma argsort_insertion_contract (before : Z -> Z -> bool) :
  (forall x y, before x y = true -> (x <= y)%Z) ->
  (forall x y, before x y = false -> (y <= x)%Z) ->
  argsort_contract (argsort_insertion before).
Proof.
  intros Ht Hf keys. split.
  - apply argsort_insertion_Permutation.
  - now apply argsort_insertion_Sorted.
Qed.

Lemma argsort_leb_contract : argsort_contract (argsort_insertion Z.leb).
Proof. apply argsort_insertion_contract; intros x y H; lia. Qed.

Lemma argsort_ltb_contract : argsort_contract (argsort_insertion Z.ltb).
Proof. apply argsort_insertion_contract; intros x y H; lia. Qed.

End PandasFacts.

(** ** The pipeline *)

Section ListFacts.
Import Pandas.
Variable A : Type.

Lemma boolean_index_filter (f : A -> bool) (l : list A) :
  boolean_index l (map f l) = filter f l.
Proof.
  induction l as [|x l IH]; simpl; [reflexivity|].
  destruct (f x); now rewrite IH.
Qed.

Lemma In_dropna (l : list (option A)) (x : A) : In x (dropna l) <-> In (Some x) l.
Proof.
  induction l as [|[y|] l IH]; simpl.
  - tauto.
  - rewrite IH. split; intros [H|H]; auto; left; congruence.
  - rewrite IH. split; [auto | intros [H|H]; [discriminate | exact H]].
Qed.



Lemma Sorted_adjacent (R : A -> A -> Prop) (l : list A) :
  Sorted R l ->
  forall i a b, nth_error l i = Some a -> nth_error l (S i) = Some b -> R a b.
Proof.
  induction 1 as [|x l Hs IH Hh]; intros i a b Ha Hb.
  - now destruct i.
  - destruct i as [|i]; simpl in Ha, Hb.
    + injection Ha as <-. destruct l as [|y l]; [discriminate|].
      injection Hb as <-. now inversion Hh.
    + exact (IH i a b Ha Hb).
Qed.

End ListFacts.

Section UniqueSorted.
Import Pandas.

Lemma In_unique (l : list string) (x : string) : In x (unique l) <-> In x l.
Proof.
  induction l as [|y l IH]; simpl; [tauto|].
  rewrite filter_In, IH, negb_true_iff, String.eqb_neq.
  destruct (string_dec y x) as [->|Hne]; [tauto|].
  split; [tauto | intros [H|H]; [tauto | right; split; congruence]].
Qed.

Lemma NoDup_unique (l : list string) : NoDup (unique l).
Proof.
  induction l as [|y l IH]; simpl; constructor.
  - rewrite filter_In, negb_true_iff, String.eqb_neq. tauto.
  - now apply NoDup_filter.
Qed.

Lemma insert_sorted_Permutation (x : string) (l : list string) :
  Permutation (insert_sorted x l) (x :: l).
Proof.
  induction l as [|y l IH]; simpl; [reflexivity|].
  destruct (String.leb x y); [reflexivity|].
  rewrite IH. apply perm_swap.
Qed.

Lemma sorted_Permutation (l : list string) : Permutation (sorted l) l.
Proof.
  induction l as [|x l IH]; simpl; [reflexivity|].
  rewrite insert_sorted_Permutation. now constructor.
Qed.

Lemma leb_false_flip (x y : string) : String.leb x y = false -> String.leb y x = true.
Proof. destruct (String.leb_total x y); congruence. Qed.

Lemma insert_sorted_Sorted (x : string) (l : list string) :
  Sorted (fun a b => String.leb a b = true) l ->
  Sorted (fun a b => String.leb a b = true) (insert_sorted x l).
Proof.
  induction l as [|y l IH]; simpl; intros H.
  - repeat constructor.
  - destruct (String.leb x y) eqn:E.
    + constructor; [exact H | now constructor].
    + inversion H as [|? ? Hs Hh]; subst. constructor; [now apply IH|].
      destruct l as [|z l]; simpl.
      * constructor. now apply leb_false_flip.
      * destruct (String.leb x z); constructor.
        -- now apply leb_false_flip.
        -- now inversion Hh.
Qed.

Lemma sorted_Sorted (l : list string) :
  Sorted (fun a b => String.leb a b = true) (sorted l).
Proof.
  induction l as [|x l IH]; simpl; [constructor | now apply insert_sorted_Sorted].
Qed.

Lemma leb_neq_ltb (x y : string) :
  String.leb x y = true -> x <> y -> String.ltb x y = true.
Proof.
  unfold String.leb, String.ltb. intros H Hne.
  destruct (String.compare x y) eqn:E; try reflexivity; try discriminate.
  apply String.compare_eq_iff in E. contradiction.
Qed.

Lemma Sorted_leb_NoDup_ltb (l : list string) :
  Sorted (fun a b => String.leb a b = true) l -> NoDup l ->
  Sorted (fun a b => String.ltb a b = true) l.
Proof.
  induction 1 as [|x l Hs IH Hh]; intros Hn; constructor.
  - apply IH. now inversion Hn.
  - destruct Hh as [|y l Hxy]; constructor.
    apply leb_neq_ltb; [exact Hxy|].
    inversion Hn as [|? ? Hx _]; subst. intros ->. apply Hx. now left.
Qed.

End UniqueSorted.

Section PipelineFacts.
Import Pandas PandasFacts.

Lemma pie_data_Permutation
    (argsort : list Z -> list nat) (df : list row) (selected : option string) :
  argsort_contract argsort ->
  Permutation
    (pie_data argsort df selected)
    (map (fun r => (bildid (source r), file_count r))
         (filter (fun r => eq_scalar (collection r) selected && (0 <? file_count r)%Z) df)).
Proof.
  intros Hc. unfold pie_data, in_collection.
  rewrite (sort_values_descending_Permutation Hc), !boolean_index_filter.
  induction df as [|r df IH]; simpl; [constructor|].
  destruct (eq_scalar (collection r) selected); simpl; [|exact IH].
  destruct (0 <? file_count r)%Z; simpl; [now constructor | exact IH].
Qed.

Lemma In_unique_collections (df : list row) (c : string) :
  In c (unique_collections df) <-> exists r, In r df /\ collection r = Some c.
Proof.
  unfold unique_collections. split.
  - intros H. apply (Permutation_in _ (sorted_Permutation _)) in H.
    apply In_unique, In_dropna, in_map_iff in H.
    destruct H as (r & E & Hr). now exists r.
  - intros (r & Hr & E).
    apply (Permutation_in _ (Permutation_sym (sorted_Permutation _))).
    apply In_unique, In_dropna, in_map_iff. now exists r.
Qed.

(** C2, as the code has it: the full-table sort returns the input rows, each
    once, with the file counts of adjacent rows non-increasing.  (The sort is
    the default quicksort, so nothing is said of the order of equal counts.) *)
Theorem df_sorted_descending (argsort : list Z -> list nat) (df : list row) :
  argsort_contract argsort ->
  Permutation (df_sorted argsort df) df
  /\ forall i a b,
       nth_error (df_sorted argsort df) i = Some a ->
       nth_error (df_sorted argsort df) (S i) = Some b ->
       (file_count a >= file_count b)%Z.
Proof.
  intros Hc. split.
  - now apply sort_values_descending_Permutation.
  - apply (Sorted_adjacent (R := fun a b => (file_count a >= file_count b)%Z)).
    now apply sort_values_descending_Sorted.
Qed.

Lemma df_sorted_descending_witness :
  argsort_contract (argsort_insertion Z.leb)
  /\ Permutation (df_sorted (argsort_insertion Z.leb) (dataframe scenario))
                 (dataframe scenario)
  /\ map (fun r => bildid (source r))
         (df_sorted (argsort_insertion Z.leb) (dataframe scenario)) = ["A1"; "A2"]%string.
Proof.
  split; [exact argsort_leb_contract|]. split.
  - exact (proj1 (df_sorted_descending (dataframe scenario) argsort_leb_contract)).
  - reflexivity.
Defined.

(** C2 as the spec words it fails: a sort that meets the contract of
    [argsort] may return rows of equal file count in another order. *)
Lemma df_sorted_stable_counterexample :
  ~ (forall argsort, argsort_contract argsort -> descending_and_stable argsort).
Proof.
  intros H. specialize (H _ argsort_ltb_contract).
  destruct (H (dataframe equal_counts)) as [_ Hs].
  specialize (Hs 5%Z). vm_compute in Hs. discriminate.
Qed.



(** C6: the codes offered in the selection control are exactly the non-null
    collection codes of the data, each once, in strictly ascending order. *)
Theorem unique_collections_exact (df : list row) :
  (forall c, In c (unique_collections df) <-> exists r, In r df /\ collection r = Some c)
  /\ NoDup (unique_collections df)
  /\ Sorted (fun a b => String.ltb a b = true) (unique_collections df).
Proof.
  unfold unique_collections.
  assert (Hn : NoDup (sorted (unique (dropna (map collection df))))).
  { apply (Permutation_NoDup (l := unique (dropna (map collection df)))).
    - symmetry. apply sorted_Permutation.
    - apply NoDup_unique. }
  split; [|split; [exact Hn|]].
  - intros c. apply In_unique_collections.
  - apply Sorted_leb_NoDup_ltb; [apply sorted_Sorted | exact Hn].
Qed.

Lemma unique_collections_exact_witness :
  unique_collections
    (dataframe [ mk_record "B" "/bil/data/b0/k" 1 None;
                 mk_record "C" "/other/path" 2 None;
                 mk_record "A" "/bil/data/3f/x" 3 None;
                 mk_record "D" "/bil/data/b0/z" 4 None ])
  = ["3f"; "b0"]%string
  /\ NoDup (unique_collections (dataframe scenario)).
Proof.
  split; [reflexivity|].
  exact (proj1 (proj2 (unique_collections_exact (dataframe scenario)))).
Defined.


(** C10: a record without a collection code is in none of the rows selected
    for a collection, so it is neither in the filtered table nor (identifiers
    being unique) among the labels of the pie chart; and every code the
    selector offers is the code of some record. *)
Theorem null_collection_excluded
    (argsort : list Z -> list nat) (df : list row)
    (choice : nat) (selected : option string) (r : row) :
  argsort_contract argsort ->
  selectbox (unique_collections df) choice = selected ->
  In r df -> collection r = None ->
  ~ In r (in_collection df selected)
  /\ ~ In (view r) (filtered_df df selected)
  /\ (NoDup (map (fun x => bildid (source x)) df) ->
      ~ In (bildid (source r)) (labels (pie_data argsort df selected)))
  /\ (forall c, selected = Some c -> exists r', In r' df /\ collection r' = Some c).
Proof.
  intros Hc Hsel Hr Hnone.
  assert (Hin : forall x, In x (in_collection df selected) ->
                          In x df /\ collection x = selected /\ collection x <> None).
  { intros x. unfold in_collection. rewrite boolean_index_filter, filter_In.
    intros [Hx He]. split; [exact Hx|].
    destruct (collection x) as [a|], selected as [b|]; simpl in He; try discriminate.
    apply String.eqb_eq in He. subst. split; congruence. }
  split; [|split; [|split]].
  - intros H. apply Hin in H. tauto.
  - unfold filtered_df. rewrite in_map_iff. intros (x & E & Hx).
    apply Hin in Hx. apply (f_equal Collection) in E. simpl in E.
    destruct Hx as (_ & _ & Hx). congruence.
  - intros Hnd Hl. unfold labels in Hl. apply in_map_iff in Hl.
    destruct Hl as ([id n] & E & He). simpl in E. subst id.
    pose proof (pie_data_Permutation df selected Hc) as HP.
    apply (Permutation_in _ HP), in_map_iff in He.
    destruct He as (x & E & Hx). injection E as Eid _.
    apply filter_In in Hx. destruct Hx as [Hx He].
    apply andb_true_iff in He. destruct He as [He _].
    assert (x = r).
    { clear - Hnd Hx Hr Eid. induction df as [|y df IH]; [contradiction|].
      simpl in Hnd. inversion Hnd as [|? ? Hy Hnd']; subst.
      destruct Hx as [->|Hx], Hr as [->|Hr]; auto.
      - elim Hy. rewrite Eid. apply in_map_iff. now exists r.
      - elim Hy. rewrite <- Eid. apply in_map_iff. now exists x. }
    subst x. rewrite Hnone in He. discriminate.
  - intros c ->. unfold selectbox in Hsel. apply nth_error_In in Hsel.
    now apply In_unique_collections in Hsel.
Qed.

Lemma null_collection_excluded_witness :
  ~ In (view (add_columns (mk_record "N" "/other/path" 7 None)))
       (filtered_df (dataframe (mk_record "N" "/other/path" 7 None :: scenario))
                    (Some "3f"%string)).
Proof.
  set (r := add_columns (mk_record "N" "/other/path" 7 None)).
  refine (proj1 (proj2 (@null_collection_excluded
                          (argsort_insertion Z.leb) (r :: dataframe scenario)
                          0%nat (Some "3f"%string) r
                          argsort_leb_contract _ _ _))).
  - reflexivity.
  - now left.
  - reflexivity.
Defined.

Lemma list_sum_repeat (a m : nat) : list_sum (repeat a m) = (a * m)%nat.
Proof. induction m as [|m IH]; simpl; [lia | rewrite IH; lia]. Qed.

Lemma num_cols_bounds (n : Z) :
  (1 <= n)%Z -> (1 <= num_cols n /\ 25 * (num_cols n - 1) < n <= 25 * num_cols n)%Z.
Proof.
  intros Hn. unfold num_cols.
  pose proof (Z.div_mod (n - 1) 25 ltac:(lia)) as E.
  pose proof (Z.mod_pos_bound (n - 1) 25 ltac:(lia)) as B.
  pose proof (Z.div_pos (n - 1) 25 ltac:(lia) ltac:(lia)) as P.
  lia.
Qed.

Lemma legend_columns_fit (n k : nat) :
  (1 <= k)%nat -> (n <= 25 * k)%nat ->
  Forall (fun c => c <= 25)%nat (legend_columns n k)
  /\ list_sum (legend_columns n k) = n.
Proof.
  intros Hk Hn. unfold legend_columns.
  pose proof (Nat.div_mod_eq n k) as E.
  pose proof (Nat.mod_upper_bound n k ltac:(lia)) as B.
  split.
  - rewrite Forall_app. split; apply Forall_forall; intros c Hc;
      pose proof Hc as Hc'; apply repeat_spec in Hc; subst c.
    + destruct (n mod k)%nat eqn:Em; [contradiction|]. nia.
    + nia.
  - rewrite list_sum_app, !list_sum_repeat. nia.
Qed.

(** C8: for a pie of [n >= 1] slices the legend gets [ceil(n / 25)] columns,
    and laid out over that many columns no column holds more than 25 of the
    [n] entries. *)
Theorem num_cols_ceil (pie : list (string * Z)) (n : nat) :
  pie <> [] -> n = List.length (labels pie) ->
  num_cols (Z.of_nat n) = ceil_div (Z.of_nat n) 25
  /\ (25 * (num_cols (Z.of_nat n) - 1) < Z.of_nat n <= 25 * num_cols (Z.of_nat n))%Z
  /\ Forall (fun c => c <= 25)%nat (legend_columns n (Z.to_nat (num_cols (Z.of_nat n))))
  /\ list_sum (legend_columns n (Z.to_nat (num_cols (Z.of_nat n)))) = n.
Proof.
  intros Hne Hlen.
  assert (Hn : (1 <= n)%nat).
  { subst n. unfold labels. rewrite length_map.
    destruct pie; [contradiction | simpl; lia]. }
  destruct (num_cols_bounds (n := Z.of_nat n) ltac:(lia)) as [H1 H2].
  split; [|split; [exact H2 | apply legend_columns_fit; lia]].
  unfold ceil_div. set (k := num_cols (Z.of_nat n)) in *.
  assert (E : (- Z.of_nat n / 25 = - k)%Z).
  { symmetry. apply (Z.div_unique _ _ _ (25 * k - Z.of_nat n)); lia. }
  rewrite E. lia.
Qed.

Lemma num_cols_ceil_witness :
  repeat ("id"%string, 1%Z) 26 <> []
  /\ num_cols 26 = 2%Z
  /\ legend_columns 26 2 = [13; 13]%nat
  /\ Forall (fun c => c <= 25)%nat (legend_columns 26 (Z.to_nat (num_cols 26))).
Proof.
  assert (H : repeat ("id"%string, 1%Z) 26 <> []) by discriminate.
  split; [exact H|]. split; [reflexivity|]. split; [reflexivity|].
  exact (proj1 (proj2 (proj2 (@num_cols_ceil _ 26%nat H eq_refl)))).
Defined.

End PipelineFacts.

(** ** Size formatting *)

Module HumanizeFacts.
Import Humanize.
Local Open Scope Z_scope.

(** *** Printing and reading numbers *)

Lemma partition_at_app (c : ascii) (s rest : string) :
  occurs c s = false ->
  partition_at c (s ++ String c rest) = Some (s, rest).
Proof.
  induction s as [|x s IH]; simpl; intros H.
  - now rewrite Ascii.eqb_refl.
  - apply orb_false_iff in H. destruct H as [Hx Hs].
    now rewrite Hx, (IH Hs).
Qed.

Lemma partition_at_absent (c : ascii) (s : string) :
  occurs c s = false -> partition_at c s = None.
Proof.
  induction s as [|x s IH]; simpl; intros H; [reflexivity|].
  apply orb_false_iff in H. destruct H as [Hx Hs].
  now rewrite Hx, (IH Hs).
Qed.

Lemma occurs_app (c : ascii) (s1 s2 : string) :
  occurs c (s1 ++ s2) = occurs c s1 || occurs c s2.
Proof.
  induction s1 as [|x s1 IH]; simpl; [reflexivity|].
  now rewrite IH, orb_assoc.
Qed.

Lemma occurs_uint (c : ascii) (d : Decimal.uint) :
  c = " "%char \/ c = "."%char ->
  occurs c (NilEmpty.string_of_uint d) = false.
Proof.
  intros [-> | ->]; induction d; simpl; auto.
Qed.

Lemma occurs_digits (c : ascii) (n : N) :
  c = " "%char \/ c = "."%char -> occurs c (digits n) = false.
Proof.
  intros Hc. unfold digits, NilZero.string_of_uint.
  destruct (N.to_uint n) eqn:E; try (rewrite <- E; now apply occurs_uint).
  destruct Hc as [-> | ->]; reflexivity.
Qed.

Lemma to_uint_nonnil (n : N) : N.to_uint n <> Decimal.Nil.
Proof.
  destruct n as [|p]; [discriminate|]. apply DecimalPos.Unsigned.to_uint_nonnil.
Qed.

Lemma number_of_digits_digits (n : N) :
  number_of_digits (digits n) = Some (Z.of_N n).
Proof.
  unfold number_of_digits, digits.
  rewrite NilZero.usu by apply to_uint_nonnil.
  now rewrite DecimalN.Unsigned.of_to.
Qed.

Lemma printed_tenths_integer (n : N) :
  printed_tenths (digits n) = Some (10 * Z.of_N n).
Proof.
  unfold printed_tenths.
  rewrite partition_at_absent by (apply occurs_digits; now right).
  now rewrite number_of_digits_digits.
Qed.

Lemma printed_tenths_decimal (t : Z) :
  0 <= t ->
  printed_tenths (digits (Z.to_N (t / 10)) ++ "." ++ digits (Z.to_N (t mod 10))) = Some t.
Proof.
  intros Ht. unfold printed_tenths. simpl append.
  rewrite partition_at_app by (apply occurs_digits; now right).
  rewrite !number_of_digits_digits.
  pose proof (Z.mod_pos_bound t 10 ltac:(lia)) as B.
  pose proof (Z.div_pos t 10 Ht ltac:(lia)) as P.
  rewrite !Z2N.id by lia.
  destruct (Z.ltb_spec (t mod 10) 10); [|lia].
  f_equal. pose proof (Z.div_mod t 10 ltac:(lia)). lia.
Qed.

(** *** Rounding to the nearest, ties to even *)


Lemma round_half_even_exact (m den : Z) :
  0 < den -> round_half_even (m * den) den = m.
Proof.
  intros Hd. unfold round_half_even.
  rewrite Z.div_mul, Z.mod_mul by lia.
  destruct (Z.ltb_spec (2 * 0) den); [reflexivity | lia].
Qed.

Lemma round_half_even_mono (a b den : Z) :
  0 < den -> a <= b -> round_half_even a den <= round_half_even b den.
Proof.
  intros Hd Hab. unfold round_half_even.
  pose proof (Z.div_mod a den ltac:(lia)) as Ea.
  pose proof (Z.div_mod b den ltac:(lia)) as Eb.
  pose proof (Z.mod_pos_bound a den Hd) as Ba.
  pose proof (Z.mod_pos_bound b den Hd) as Bb.
  pose proof (Z.div_le_mono a b den Hd Hab) as Hq.
  destruct (Z.eq_dec (a / den) (b / den)) as [Eq|Hne].
  - rewrite <- Eq in *.
    assert (a mod den <= b mod den) by nia.
    destruct (Z.ltb_spec (2 * (a mod den)) den);
      destruct (Z.ltb_spec (2 * (b mod den)) den);
      destruct (Z.ltb_spec den (2 * (a mod den)));
      destruct (Z.ltb_spec den (2 * (b mod den)));
      destruct (Z.even (a / den)); lia.
  - destruct (Z.ltb_spec (2 * (a mod den)) den);
      destruct (Z.ltb_spec (2 * (b mod den)) den);
      destruct (Z.ltb_spec den (2 * (a mod den)));
      destruct (Z.ltb_spec den (2 * (b mod den)));
      destruct (Z.even (a / den)); destruct (Z.even (b / den)); lia.
Qed.

(** *** The shape of a formatted size *)

Lemma pow_base_pos (k : Z) : 0 <= k -> 0 < base ^ k.
Proof. intros. apply Z.pow_pos_nonneg; unfold base; lia. Qed.


(** The loop stops at the suffix of index [j]: the first unit above the
    size, or the last one. *)
Lemma naturalsize_units_stop (suffix : list string) :
  forall (i : nat) (v : Z),
    suffix <> [] -> 0 <= v -> base ^ (Z.of_nat i + 1) <= v ->
    exists (j : nat) (s : string),
      nth_error suffix j = Some s
      /\ naturalsize_units v i suffix
         = (fmt_1f (base * v) (base ^ (Z.of_nat (i + j) + 2)) ++ s)%string
      /\ base ^ (Z.of_nat (i + j) + 1) <= v
      /\ ((S j < List.length suffix)%nat -> v < base ^ (Z.of_nat (i + j) + 2)).
Proof.
  induction suffix as [|s rest IH]; intros i v Hne Hv Hlow; [contradiction|].
  cbn [naturalsize_units]. destruct rest as [|s' rest'].
  - exists 0%nat, s. rewrite Nat.add_0_r. repeat split; auto. simpl. lia.
  - rewrite (Z.abs_eq v Hv).
    destruct (Z.ltb_spec v (base ^ (Z.of_nat i + 2))) as [Hlt|Hge].
    + exists 0%nat, s. rewrite Nat.add_0_r. repeat split; auto.
    + destruct (IH (S i) v ltac:(discriminate) Hv) as (j & s2 & Hj & E & Hl & Hu).
      { replace (Z.of_nat (S i) + 1) with (Z.of_nat i + 2) by lia. exact Hge. }
      exists (S j), s2.
      replace (i + S j)%nat with (S i + j)%nat by lia.
      repeat split; auto. intros H. apply Hu. simpl in H |- *. lia.
Qed.

Lemma unit_exponent_suffix (j : nat) (s : string) :
  nth_error suffixes_binary j = Some s ->
  exists u, s = String " " u /\ unit_exponent u = Some (S j) /\ (j < 10)%nat.
Proof.
  intros H.
  do 10 (destruct j as [|j];
         [injection H as <-; eexists; repeat split; lia|]).
  destruct j; discriminate.
Qed.

Lemma parse_size_number (t : Z) (u : string) (k : nat) :
  0 <= t -> unit_exponent u = Some k ->
  parse_size ((digits (Z.to_N (t / 10)) ++ "." ++ digits (Z.to_N (t mod 10)))
              ++ String " " u) = Some (t, k).
Proof.
  intros Ht Hu. unfold parse_size.
  rewrite partition_at_app.
  - now rewrite printed_tenths_decimal, Hu.
  - rewrite occurs_app. simpl.
    now rewrite !occurs_digits by now left.
Qed.

Lemma round_half_even_nonneg (num den : Z) :
  0 <= num -> 0 < den -> 0 <= round_half_even num den.
Proof.
  intros Hn Hd. rewrite <- (round_half_even_exact 0 Hd).
  apply round_half_even_mono; lia.
Qed.

Lemma parse_size_naturalsize (v : Z) :
  0 <= v ->
  exists t k, parse_size (naturalsize v) = Some (t, k) /\ size_parts v t k.
Proof.
  intros Hv. unfold naturalsize. rewrite (Z.abs_eq v Hv).
  destruct (Z.eqb_spec v 1) as [->|H1].
  - exists 10, 0%nat. split; [reflexivity|]. left. unfold base. lia.
  - destruct (Z.ltb_spec v base) as [Hlt|Hge].
    + exists (10 * v), 0%nat. split; [|left; auto].
      unfold fmt_d, sign, parse_size.
      destruct (Z.ltb_spec v 0); [lia|]. simpl append.
      rewrite partition_at_app by (apply occurs_digits; now left).
      rewrite printed_tenths_integer.
      change (unit_exponent "Bytes") with (Some 0%nat).
      now rewrite N2Z.inj_abs_N, Z.abs_eq by lia.
    + destruct (@naturalsize_units_stop suffixes_binary 0%nat v
                  ltac:(discriminate) Hv)
        as (j & s & Hj & E & Hl & Hu).
      { simpl. exact Hge. }
      destruct (unit_exponent_suffix _ Hj) as (u & -> & Hk & Hj10).
      simpl Nat.add in *.
      replace (Z.of_nat j + 2) with (Z.of_nat (S j) + 1) in * by lia.
      replace (Z.of_nat j + 1) with (Z.of_nat (S j)) in * by lia.
      set (k := S j) in *. set (den := base ^ (Z.of_nat k + 1)) in *.
      assert (Hden : 0 < den) by (apply pow_base_pos; lia).
      exists (round_half_even (10 * (base * v)) den), k.
      split.
      * rewrite E. unfold fmt_1f, tenths, sign.
        assert (Hb : 0 <= base * v) by (unfold base; lia).
        destruct (Z.ltb_spec (base * v) 0); [lia|].
        rewrite (Z.abs_eq _ Hb).
        assert (Ht : 0 <= round_half_even (10 * (base * v)) den)
          by (apply round_half_even_nonneg; lia).
        etransitivity; [|exact (@parse_size_number _ u k Ht Hk)].
        reflexivity.
      * right. repeat split; try lia; auto.
Qed.

(** *** What the parts of a formatted size say about the size *)

Section SizeParts.
Variables (v t : Z) (k : nat).
Hypothesis Hp : size_parts v t k.







End SizeParts.


End HumanizeFacts.

Example naturalsize_samples :
  map Humanize.naturalsize
      [0; 1; 1023; 1024; 1280; 1792; 1048575; 1048576; 1073741824; 1288490189]%Z
  = ["0 Bytes"; "1 Byte"; "1023 Bytes"; "1.0 KiB"; "1.2 KiB"; "1.8 KiB";
     "1024.0 KiB"; "1.0 MiB"; "1.0 GiB"; "1.2 GiB"].
Proof. vm_compute. reflexivity. Qed.

Example magnitude_samples :
  map Humanize.magnitude_tenths ["0 Bytes"; "1 Byte"; "1.2 KiB"; "1.0 GiB"; "7 B"]
  = [Some 0; Some 10; Some 12288; Some 10737418240; None]%Z.
Proof. vm_compute. reflexivity. Qed.

Section SizeFormatting.
Import Humanize HumanizeFacts.
Local Open Scope Z_scope.





End SizeFormatting.

(** ** The run and its error display *)

Section RunFacts.
Local Open Scope string_scope.

Ltac unfold_run :=
  unfold rendered, raised, app, App.try_except, try_body, except_handler,
    App.bind, App.call, App.draw, App.raise, App.ret,
    raise_for_status, run_stage in *.

Ltac case_stage w s :=
  let E := fresh "E" in destruct (raises w s) eqn:E.

(** The outcome of the fetch and of the parse. *)
Ltac case_load w :=
  let Eg := fresh "Eget" in
  let Es := fresh "Estatus" in
  let Ej := fresh "Ejson" in
  destruct (requests_get w) as [?|r] eqn:Eg;
  [| destruct ((400 <=? status_code r) && (status_code r <? 600))%Z eqn:Es;
     [| destruct (json w (body r)) as [?|data] eqn:Ej ] ].

Ltac case_early w :=
  case_stage w DataFrame_30; [| case_stage w collection_37;
  [| case_stage w pretty_size_40; [| case_stage w sort_values_43;
  [| case_stage w preview_46 ]]]].

Ltac case_late w :=
  case_stage w unique_61; [| case_stage w filtered_66;
  [| case_stage w pie_select_77; [| case_stage w pie_positive_78;
  [| case_stage w plot_80 ]]]].

Lemma raised_early (w : world) :
  raises_before_first_table w ->
  exists msg, rendered w = (preamble w ++ [st_error msg])%list.
Proof.
  unfold raises_before_first_table. intros H. unfold_run.
  case_load w; [eexists; reflexivity | eexists; reflexivity
               | eexists; reflexivity |].
  case_early w; try (eexists; reflexivity).
  exfalso. destruct H as [H | [[e H] | (s & Hs & H)]].
  - apply andb_false_iff in Estatus. lia.
  - discriminate.
  - destruct s; try discriminate; congruence.
Qed.

Lemma raised_anywhere (w : world) :
  raised w ->
  List.length (filter is_error (rendered w)) = 1%nat
  /\ existsb is_chart (rendered w) = false
  /\ exists msg, last (rendered w) (st_title EmptyString) = st_error msg.
Proof.
  intros (ui & e & H). unfold_run.
  case_load w; try (repeat split; eexists; reflexivity).
  case_early w; try (repeat split; eexists; reflexivity).
  case_late w; try (repeat split; eexists; reflexivity).
  discriminate.
Qed.


(** The scenario of the spec runs through: one code offered, the full table
    with A1 ahead of A2, A2 without a size, the pie with A1 alone. *)
Example rendered_scenario :
  skipn 4 (rendered world_scenario)
  = [ st_subheader "Preview: Sorted by Number of Files (Descending)";
      st_dataframe [ mk_view (Some "3f") "A1" 10 (Some "1.0 GiB");
                     mk_view (Some "3f") "A2" 0 None ];
      st_subheader "Collections";
      st_selectbox "Select a Collection:" ["3f"];
      st_markdown "You selected: **3f**";
      st_dataframe [ mk_view (Some "3f") "A1" 10 (Some "1.0 GiB");
                     mk_view (Some "3f") "A2" 0 None ];
      st_subheader "File Distribution in Selected Collection";
      st_pyplot (mk_figure [("A1", 10%Z)] ["A1"] 1) ].
Proof. vm_compute. reflexivity. Qed.

(** C3, as the code has it: when the fetch, the parse, or a transformation
    ahead of the first table raises, the user sees what was drawn before the
    load and one error message below it, no table and no chart; and whenever
    the block raises, at whatever point, exactly one error message is shown,
    it is the last element, and no chart is shown. *)
Theorem app_error_display (w : world) :
  (raises_before_first_table w ->
     (exists msg, rendered w = (preamble w ++ [st_error msg])%list)
     /\ List.length (filter is_error (rendered w)) = 1%nat
     /\ existsb is_table (rendered w) = false
     /\ existsb is_chart (rendered w) = false)
  /\ (raised w ->
        List.length (filter is_error (rendered w)) = 1%nat
        /\ existsb is_chart (rendered w) = false
        /\ exists msg, last (rendered w) (st_title EmptyString) = st_error msg).
Proof.
  split; [|apply raised_anywhere].
  intros H. destruct (raised_early w H) as [msg E].
  split; [now exists msg|]. rewrite E. now repeat split.
Qed.

Lemma app_error_display_witness :
  raises_before_first_table world_http_500
  /\ rendered world_http_500
     = (preamble world_http_500
        ++ [st_error ("Failed to load or process data: "
                      ++ "500 Server Error: Internal Server Error for url: " ++ URL)])%list
  /\ existsb is_table (rendered world_http_500) = false
  /\ existsb is_chart (rendered world_http_500) = false.
Proof.
  assert (H : raises_before_first_table world_http_500) by (left; simpl; lia).
  split; [exact H|]. split; [reflexivity|].
  exact (proj2 (proj2 (proj1 (app_error_display world_http_500) H))).
Defined.

(** C3 as the spec words it fails: an exception raised after the first table
    is drawn leaves the tables on the page, above the error message. *)
Lemma app_error_partial_ui_counterexample :
  ~ (forall w, error_without_partial_ui w).
Proof.
  intros H. destruct (H world_late_error) as (_ & Htable & _).
  - unfold raised.
    destruct (try_body world_late_error (preamble world_late_error))
      as [ui [e|[]]] eqn:E.
    + now exists ui, e.
    + vm_compute in E. discriminate.
  - vm_compute in Htable. discriminate.
Qed.

End RunFacts.

(* ================================================================== *)
(** * Further properties of the script *)
(* ================================================================== *)

(** ** Collection extraction *)

Section ExtractCollectionMore.
Local Open Scope string_scope.

Lemma append_split_prefix (p : string) :
  forall s t q, s ++ t = p ++ q -> String.length p <= String.length s ->
                exists r, s = p ++ r.
Proof.
  induction p as [|a p IH]; intros s t q E Hlen; simpl in *.
  - now exists s.
  - destruct s as [|b s]; simpl in *; [lia|].
    injection E as -> E. destruct (IH s t q E ltac:(lia)) as [r ->].
    now exists r.
Qed.

Lemma match_here_length (s c : string) :
  match_here s = Some c -> 13 <= String.length s.
Proof.
  intros H. apply match_here_Some in H.
  destruct H as (post & -> & a & b & -> & _). simpl. lia.
Qed.

Lemma match_here_app (s t c : string) :
  match_here s = Some c -> match_here (s ++ t) = Some c.
Proof.
  intros H. apply match_here_Some in H. destruct H as (post & E & Hp).
  apply match_here_Some. exists (post ++ t). split; [|exact Hp].
  simpl in *. rewrite E. simpl. f_equal. f_equal. f_equal. f_equal. f_equal.
  f_equal. f_equal. f_equal. f_equal. f_equal.
  now rewrite !StrFacts.append_assoc.
Qed.

Lemma match_here_app_None (s t : string) :
  match_here s = None -> 13 <= String.length s -> match_here (s ++ t) = None.
Proof.
  intros Hn Hlen. destruct (match_here (s ++ t)) as [c|] eqn:E; [|reflexivity].
  apply match_here_Some in E.
  destruct E as (post & E & a & b & -> & Ha & Hb). simpl in E.
  destruct (@append_split_prefix
              (root_literal ++ String a (String b "/")) s t post) as [r Hr].
  - rewrite E. reflexivity.
  - simpl. exact Hlen.
  - assert (match_here s = Some (String a (String b EmptyString))).
    { apply match_here_Some. exists r. split; [exact Hr|].
      exists a, b. now repeat split. }
    congruence.
Qed.

Lemma re_search_length (s c : string) :
  re_search s = Some c -> 13 <= String.length s.
Proof.
  induction s as [|x s IH]; cbn [re_search].
  - destruct (match_here EmptyString) eqn:E; [|discriminate].
    intros _. now apply match_here_length in E.
  - destruct (match_here (String x s)) eqn:E.
    + intros _. now apply match_here_length in E.
    + intros H. apply IH in H. simpl. lia.
Qed.

(** X1: once a path has a match, what follows the path does not matter:
    extending the path at its end leaves the extracted code unchanged. *)
Theorem extract_collection_append (path rest c : string) :
  extract_collection path = Some c ->
  extract_collection (path ++ rest) = Some c.
Proof.
  unfold extract_collection. induction path as [|x p IH]; intros H.
  - apply re_search_length in H. simpl in H. lia.
  - cbn [re_search] in H. simpl append. cbn [re_search].
    destruct (match_here (String x p)) as [g|] eqn:E.
    + change (String x (p ++ rest)) with (String x p ++ rest).
      now rewrite (@match_here_app (String x p) rest g E).
    + pose proof (@re_search_length p c H) as Hlen.
      change (String x (p ++ rest)) with (String x p ++ rest).
      rewrite (@match_here_app_None (String x p) rest E) by (simpl; lia).
      now apply IH.
Qed.

Lemma extract_collection_append_witness :
  extract_collection ("/bil/data/3f/" ++ "x/bil/data/aa/y") = Some "3f".
Proof.
  apply (@extract_collection_append "/bil/data/3f/" "x/bil/data/aa/y" "3f").
  reflexivity.
Defined.

End ExtractCollectionMore.

(** ** Selection, filtered table and pie chart *)

Section SelectionMore.
Import Pandas PandasFacts.

Lemma take_nil (A : Type) (i : list nat) : take (@nil A) i = [].
Proof. induction i as [|[|x] i IH]; simpl; auto. Qed.

Lemma take_In (A : Type) (l : list A) (i : list nat) (x : A) :
  In x (take l i) -> In x l.
Proof.
  induction i as [|k i IH]; simpl; [tauto|].
  destruct (nth_error l k) eqn:E; [|exact IH].
  intros [<-|H]; [now apply nth_error_In in E | now apply IH].
Qed.

Lemma eq_scalar_None (entry : option string) : eq_scalar entry None = false.
Proof. now destruct entry. Qed.

Lemma in_collection_filter (df : list row) (selected : option string) :
  in_collection df selected
  = filter (fun r => eq_scalar (collection r) selected) df.
Proof. unfold in_collection. apply boolean_index_filter. Qed.

Lemma filter_none (A : Type) (f : A -> bool) (l : list A) :
  (forall x, In x l -> f x = false) -> filter f l = [].
Proof.
  induction l as [|x l IH]; simpl; intros H; [reflexivity|].
  rewrite (H x) by now left. apply IH. intros y Hy. apply H. now right.
Qed.

(** X2: a selection of [None] selects no record at all, not the records
    without a code: filtered table and pie input are empty, whatever the
    sort does; and when no record has a code the selector has no option and
    hands back [None] for every choice. *)
Theorem none_selects_nothing (argsort : list Z -> list nat) (df : list row) :
  filtered_df df None = []
  /\ pie_data argsort df None = []
  /\ ((forall r, In r df -> collection r = None) ->
      unique_collections df = []
      /\ forall choice, selectbox (unique_collections df) choice = None).
Proof.
  assert (E : in_collection df None = []).
  { rewrite in_collection_filter. apply filter_none.
    intros r _. apply eq_scalar_None. }
  split; [|split].
  - unfold filtered_df. now rewrite E.
  - unfold pie_data. rewrite E. simpl.
    unfold sort_values_descending. apply take_nil.
  - intros H.
    assert (Hu : unique_collections df = []).
    { destruct (unique_collections df) as [|c l] eqn:Eu; [reflexivity|].
      assert (Hc : In c (unique_collections df)) by (rewrite Eu; now left).
      apply In_unique_collections in Hc. destruct Hc as (r & Hr & Hc).
      rewrite (H r Hr) in Hc. discriminate. }
    split; [exact Hu|]. intros choice. rewrite Hu. unfold selectbox.
    now destruct choice.
Qed.

Lemma none_selects_nothing_witness :
  unique_collections (dataframe [mk_record "N" "/other/path" 7 None]) = []
  /\ selectbox (unique_collections (dataframe [mk_record "N" "/other/path" 7 None])) 0
     = None.
Proof.
  destruct (proj2 (proj2 (none_selects_nothing
                            (argsort_insertion Z.leb)
                            (dataframe [mk_record "N" "/other/path" 7 None]))))
    as [Hu Hs].
  - intros r [<-|[]]. reflexivity.
  - split; [exact Hu | exact (Hs 0%nat)].
Defined.

(** X3: a code is offered by the selector exactly when its filtered table
    has at least one row, and every row of that table carries the code. *)
Theorem offered_iff_rows (df : list row) (c : string) :
  (In c (unique_collections df) <-> filtered_df df (Some c) <> [])
  /\ forall v, In v (filtered_df df (Some c)) -> Collection v = Some c.
Proof.
  assert (Hin : forall r, In r (in_collection df (Some c)) <->
                          In r df /\ collection r = Some c).
  { intros r. rewrite in_collection_filter, filter_In. unfold eq_scalar.
    destruct (collection r) as [a|]; [|split; intros [_ H]; discriminate].
    rewrite String.eqb_eq. split; intros [H1 H2]; split; congruence. }
  split; [split|].
  - intros H. apply In_unique_collections in H. destruct H as (r & Hr & Hc).
    unfold filtered_df. intros E. apply map_eq_nil in E.
    assert (Hi : In r (in_collection df (Some c))) by now apply Hin.
    rewrite E in Hi. contradiction.
  - unfold filtered_df. intros H.
    destruct (in_collection df (Some c)) as [|r l]; [now elim H|].
    destruct (proj1 (Hin r) (or_introl eq_refl)) as [Hr Hc].
    apply In_unique_collections. now exists r.
  - unfold filtered_df. intros v Hv. apply in_map_iff in Hv.
    destruct Hv as (r & <- & Hr). apply Hin in Hr. simpl. tauto.
Qed.

Lemma offered_iff_rows_witness :
  In "3f"%string (unique_collections (dataframe scenario))
  /\ ~ In "aa"%string (unique_collections (dataframe scenario)).
Proof.
  split.
  - apply (proj1 (offered_iff_rows (dataframe scenario) "3f")). discriminate.
  - intros H.
    apply (proj1 (proj1 (offered_iff_rows (dataframe scenario) "aa")) H).
    reflexivity.
Defined.

Lemma list_sum_map_add (A : Type) (f g : A -> nat) (l : list A) :
  list_sum (map (fun x => f x + g x) l) = list_sum (map f l) + list_sum (map g l).
Proof. induction l as [|x l IH]; simpl; [reflexivity | rewrite IH; lia]. Qed.

Lemma list_sum_indicator_absent (c0 : string) (l : list string) :
  ~ In c0 l -> list_sum (map (fun c => if String.eqb c0 c then 1 else 0) l) = 0.
Proof.
  induction l as [|c l IH]; simpl; intros H; [reflexivity|].
  destruct (String.eqb_spec c0 c) as [->|Hne]; [elim H; now left|].
  apply IH. intros Hc. apply H. now right.
Qed.

Lemma list_sum_indicator (c0 : string) (l : list string) :
  NoDup l -> In c0 l ->
  list_sum (map (fun c => if String.eqb c0 c then 1 else 0) l) = 1.
Proof.
  induction 1 as [|c l Hc Hn IH]; simpl; intros Hin; [contradiction|].
  destruct (String.eqb_spec c0 c) as [->|Hne].
  - now rewrite list_sum_indicator_absent.
  - destruct Hin as [E|Hin]; [now elim Hne | now apply IH].
Qed.

Lemma list_sum_zero (A : Type) (l : list A) :
  list_sum (map (fun _ => 0) l) = 0.
Proof. induction l; simpl; auto. Qed.

Lemma tables_partition_gen (codes : list string) (df : list row) :
  NoDup codes ->
  (forall r c, In r df -> collection r = Some c -> In c codes) ->
  list_sum (map (fun c => List.length (in_collection df (Some c))) codes)
  + List.length (filter without_code df) = List.length df.
Proof.
  intros Hn. induction df as [|r df IH]; intros Hc.
  - rewrite (map_ext (fun c => List.length (in_collection [] (Some c)))
                     (fun _ => 0)) by reflexivity.
    now rewrite list_sum_zero.
  - assert (IH' := IH (fun r' c H => Hc r' c (or_intror H))).
    rewrite (map_ext
               (fun c => List.length (in_collection (r :: df) (Some c)))
               (fun c => (if eq_scalar (collection r) (Some c) then 1 else 0)
                         + List.length (in_collection df (Some c)))).
    + rewrite list_sum_map_add. simpl filter. unfold without_code at 1.
      destruct (collection r) as [c0|] eqn:E.
      * cbn [eq_scalar].
        rewrite (@list_sum_indicator c0 codes Hn) by
          (apply (Hc r c0); [now left | exact E]).
        simpl. lia.
      * cbn [eq_scalar]. rewrite list_sum_zero. simpl. lia.
    + intros c. rewrite !in_collection_filter. simpl.
      destruct (eq_scalar (collection r) (Some c)); reflexivity.
Qed.

(** X4: the filtered tables of the offered codes split the inventory: their
    row counts and the number of records without a code add up to the
    number of records. *)
Theorem tables_partition (df : list row) :
  list_sum (map (fun c => List.length (filtered_df df (Some c)))
                (unique_collections df))
  + List.length (filter without_code df) = List.length df.
Proof.
  rewrite (map_ext (fun c => List.length (filtered_df df (Some c)))
                   (fun c => List.length (in_collection df (Some c))))
    by (intros c; unfold filtered_df; apply length_map).
  apply tables_partition_gen.
  - apply (Permutation_NoDup (l := unique (dropna (map collection df)))).
    + symmetry. apply sorted_Permutation.
    + apply NoDup_unique.
  - intros r c Hr Hc. apply In_unique_collections. now exists r.
Qed.

Lemma pie_data_In (argsort : list Z -> list nat) (df : list row)
    (selected : option string) (e : string * Z) :
  In e (pie_data argsort df selected) ->
  (0 < snd e)%Z
  /\ exists r, In r df /\ eq_scalar (collection r) selected = true
               /\ e = (bildid (source r), file_count r).
Proof.
  unfold pie_data, sort_values_descending. intros H. apply take_In in H.
  rewrite boolean_index_filter, filter_In in H. destruct H as [H Hpos].
  split; [lia|]. apply in_map_iff in H. destruct H as (r & <- & Hr).
  rewrite in_collection_filter, filter_In in Hr. exists r. tauto.
Qed.

Lemma pie_total_bound (pie : list (string * Z)) :
  (forall e, In e pie -> (0 < snd e)%Z) ->
  forall e, In e pie -> (snd e <= pie_total pie)%Z.
Proof.
  unfold pie_total. induction pie as [|x pie IH]; intros Hpos e He; [contradiction|].
  simpl. assert (Hx : (0 < snd x)%Z) by (apply Hpos; now left).
  assert (H0 : (0 <= fold_right Z.add 0 (map snd pie))%Z).
  { clear - Hpos. induction pie as [|y pie IH]; simpl; [lia|].
    assert ((0 < snd y)%Z) by (apply Hpos; right; now left).
    assert ((0 <= fold_right Z.add 0 (map snd pie))%Z); [|lia].
    apply IH. intros e [->|He]; apply Hpos; [now left | right; now right]. }
  destruct He as [->|He]; [lia|].
  assert ((snd e <= fold_right Z.add 0 (map snd pie))%Z); [|lia].
  apply IH; [|exact He]. intros e' He'. apply Hpos. now right.
Qed.

(** X5: whatever [argsort] returns, every slice handed to the pie is a
    record of the selected collection with a positive count; so no wedge
    exceeds the total the pie divides by, and a pie with a slice has a
    positive total. *)
Theorem pie_data_shares (argsort : list Z -> list nat) (df : list row)
    (selected : option string) :
  (forall e, In e (pie_data argsort df selected) ->
     (0 < snd e <= pie_total (pie_data argsort df selected))%Z
     /\ exists r, In r df /\ collection r = selected
                  /\ e = (bildid (source r), file_count r))
  /\ (pie_data argsort df selected <> [] ->
      (0 < pie_total (pie_data argsort df selected))%Z).
Proof.
  assert (Hpos : forall e, In e (pie_data argsort df selected) -> (0 < snd e)%Z)
    by (intros e He; now apply pie_data_In in He).
  split.
  - intros e He. pose proof (@pie_total_bound _ Hpos e He) as Hb.
    destruct (@pie_data_In argsort df selected e He) as (Hp & r & Hr & Hs & E).
    split; [lia|]. exists r. repeat split; auto.
    destruct (collection r) as [a|], selected as [b|]; try discriminate.
    apply String.eqb_eq in Hs. now subst.
  - intros Hne. destruct (pie_data argsort df selected) as [|e pie] eqn:E;
      [now elim Hne|].
    assert (He : In e (e :: pie)) by now left.
    pose proof (Hpos e He). pose proof (@pie_total_bound _ Hpos e He). lia.
Qed.

Lemma pie_data_shares_witness :
  (0 < pie_total (pie_data (argsort_insertion Z.ltb) (dataframe scenario)
                           (Some "3f"%string)))%Z.
Proof.
  apply (proj2 (pie_data_shares (argsort_insertion Z.ltb) (dataframe scenario)
                                (Some "3f"%string))).
  discriminate.
Defined.

Lemma num_cols_le (n k : Z) : (num_cols n <= k <-> n <= 25 * k)%Z.
Proof.
  unfold num_cols.
  pose proof (Z.div_mod (n - 1) 25 ltac:(lia)) as E.
  pose proof (Z.mod_pos_bound (n - 1) 25 ltac:(lia)) as B.
  lia.
Qed.



(** X7: the legend gets the least number of columns of 25 entries that hold
    the labels: [num_cols n <= k] exactly when [n <= 25 * k], for all integers;
    so more labels never give fewer columns. *)
Theorem num_cols_least (n k : Z) :
  ((num_cols n <= k <-> n <= 25 * k)
   /\ forall m, n <= m -> num_cols n <= num_cols m)%Z.
Proof.
  split; [apply num_cols_le|].
  intros m Hm. apply num_cols_le.
  assert (Hmm : (m <= 25 * num_cols m)%Z) by (apply num_cols_le; lia). lia.
Qed.

Lemma num_cols_least_witness : (num_cols 26 <= num_cols 51)%Z /\ (num_cols 50 <= 2)%Z.
Proof.
  split.
  - apply (proj2 (num_cols_least 26 0) 51%Z). lia.
  - apply (proj1 (num_cols_least 50 2)). lia.
Defined.

End SelectionMore.

(** ** What the order of the records does and does not decide *)

Section OrderMore.
Import Pandas PandasFacts.

Lemma StronglySorted_Permutation_eq (A : Type) (R : A -> A -> Prop) :
  (forall a b, R a b -> R b a -> False) ->
  forall l1 l2 : list A,
    StronglySorted R l1 -> StronglySorted R l2 -> Permutation l1 l2 -> l1 = l2.
Proof.
  intros Hasym. induction l1 as [|x t1 IH]; intros l2 S1 S2 P.
  - now apply Permutation_nil in P.
  - destruct l2 as [|y t2];
      [apply Permutation_sym, Permutation_nil in P; discriminate|].
    inversion S1 as [|? ? St1 Hx]; subst. inversion S2 as [|? ? St2 Hy]; subst.
    rewrite Forall_forall in Hx, Hy.
    assert (E : x = y).
    { assert (H1 : In x (y :: t2)) by (apply (Permutation_in _ P); now left).
      assert (H2 : In y (x :: t1))
        by (apply (Permutation_in _ (Permutation_sym P)); now left).
      destruct H1 as [H1|H1]; [now symmetry|].
      destruct H2 as [H2|H2]; [exact H2|].
      elim (Hasym x y); auto. }
    subst y. f_equal. apply IH; auto. now apply Permutation_cons_inv in P.
Qed.

Lemma Sorted_ge_strict (B : Type) (key : B -> Z) (l : list B) :
  Sorted (fun a b => (key a >= key b)%Z) l -> NoDup (map key l) ->
  StronglySorted (fun a b => (key a > key b)%Z) l.
Proof.
  intros H. apply Sorted_StronglySorted in H; [|intros a b c; lia].
  induction H as [|x l Hl IH Hx]; simpl; intros Hn; constructor.
  - apply IH. now inversion Hn.
  - inversion Hn as [|? ? Hnx _]; subst. rewrite Forall_forall in *.
    intros b Hb. pose proof (Hx b Hb).
    assert (key b <> key x); [|lia].
    intros E. apply Hnx. rewrite <- E. now apply in_map.
Qed.

(** X8: ties are all that the sort leaves open: when no two records have
    the same file count, every [argsort] that meets the contract gives the
    same full table. *)
Theorem df_sorted_determined (argsort1 argsort2 : list Z -> list nat)
    (df : list row) :
  argsort_contract argsort1 -> argsort_contract argsort2 ->
  NoDup (map file_count df) ->
  df_sorted argsort1 df = df_sorted argsort2 df
  /\ preview_df argsort1 df = preview_df argsort2 df.
Proof.
  intros H1 H2 Hn.
  assert (E : df_sorted argsort1 df = df_sorted argsort2 df).
  { unfold df_sorted.
    pose proof (sort_values_descending_Permutation H1 file_count df) as P1.
    pose proof (sort_values_descending_Permutation H2 file_count df) as P2.
    apply (@StronglySorted_Permutation_eq _
             (fun a b => (file_count a > file_count b)%Z)).
    - intros a b; lia.
    - apply Sorted_ge_strict; [now apply sort_values_descending_Sorted|].
      apply (Permutation_NoDup (l := map file_count df)); [|exact Hn].
      apply Permutation_map. now symmetry.
    - apply Sorted_ge_strict; [now apply sort_values_descending_Sorted|].
      apply (Permutation_NoDup (l := map file_count df)); [|exact Hn].
      apply Permutation_map. now symmetry.
    - now rewrite P1, P2. }
  split; [exact E|]. unfold preview_df. now rewrite E.
Qed.

Lemma df_sorted_determined_witness :
  df_sorted (argsort_insertion Z.leb) (dataframe scenario)
  = df_sorted (argsort_insertion Z.ltb) (dataframe scenario).
Proof.
  refine (proj1 (@df_sorted_determined _ _ (dataframe scenario)
                   argsort_leb_contract argsort_ltb_contract _)).
  constructor; [intros [H|[]]; discriminate H|].
  constructor; [intros []|constructor].
Defined.

Lemma ltb_lt (a b : string) :
  String.ltb a b = true <-> OrderedTypeEx.String_as_OT.lt a b.
Proof.
  rewrite <- OrderedTypeEx.String_as_OT.cmp_lt.
  unfold String.ltb, OrderedTypeEx.String_as_OT.cmp.
  destruct (String.compare a b); split; congruence.
Qed.

Lemma ltb_trans (a b c : string) :
  String.ltb a b = true -> String.ltb b c = true -> String.ltb a c = true.
Proof.
  rewrite !ltb_lt. apply OrderedTypeEx.String_as_OT.lt_trans.
Qed.

Lemma ltb_asym (a b : string) :
  String.ltb a b = true -> String.ltb b a = true -> False.
Proof.
  intros H1 H2. pose proof (ltb_trans _ _ _ H1 H2) as H.
  apply ltb_lt in H. apply (OrderedTypeEx.String_as_OT.lt_not_eq a a H). reflexivity.
Qed.

Lemma unique_collections_StronglySorted (df : list row) :
  NoDup (unique_collections df)
  /\ StronglySorted (fun a b => String.ltb a b = true) (unique_collections df).
Proof.
  assert (Hn : NoDup (unique_collections df)).
  { apply (Permutation_NoDup (l := unique (dropna (map collection df)))).
    - symmetry. apply sorted_Permutation.
    - apply NoDup_unique. }
  split; [exact Hn|].
  apply Sorted_StronglySorted; [intros a b c; apply ltb_trans|].
  apply Sorted_leb_NoDup_ltb; [apply sorted_Sorted | exact Hn].
Qed.

(** X9: the selector does not depend on the order of the records: two
    inventories with the same records offer the same list of codes; in
    particular the sorted full table offers what the unsorted frame does. *)
Theorem unique_collections_order (df df' : list row) :
  Permutation df df' ->
  unique_collections df = unique_collections df'
  /\ forall argsort, argsort_contract argsort ->
       unique_collections (df_sorted argsort df) = unique_collections df.
Proof.
  assert (H : forall d d', Permutation d d' ->
                           unique_collections d = unique_collections d').
  { intros d d' P.
    destruct (unique_collections_StronglySorted d) as [N1 S1].
    destruct (unique_collections_StronglySorted d') as [N2 S2].
    apply (StronglySorted_Permutation_eq ltb_asym S1 S2).
    apply NoDup_Permutation; auto. intros c.
    rewrite !In_unique_collections. split; intros (r & Hr & Hc); exists r;
      (split; [|exact Hc]).
    - now apply (Permutation_in _ P).
    - now apply (Permutation_in _ (Permutation_sym P)). }
  intros P. split; [now apply H|].
  intros argsort Hc. apply H. now apply sort_values_descending_Permutation.
Qed.

Lemma unique_collections_order_witness :
  unique_collections (rev (dataframe scenario)) = unique_collections (dataframe scenario).
Proof.
  apply (proj1 (@unique_collections_order (rev (dataframe scenario))
                  (dataframe scenario)
                  (Permutation_sym (Permutation_rev (dataframe scenario))))).
Defined.

(** X10: the default selection (choice 0) is the least code of the
    inventory in character-code order, and there is no default exactly
    when no record has a code. *)
Theorem selectbox_default_least (df : list row) :
  (forall c, selectbox (unique_collections df) 0 = Some c ->
     (exists r, In r df /\ collection r = Some c)
     /\ forall r c', In r df -> collection r = Some c' -> String.leb c c' = true)
  /\ (selectbox (unique_collections df) 0 = None <->
      forall r, In r df -> collection r = None).
Proof.
  destruct (unique_collections_StronglySorted df) as [_ S]. split.
  - intros c Hs. unfold selectbox in Hs.
    assert (Hin : In c (unique_collections df)) by now apply nth_error_In in Hs.
    split; [now apply In_unique_collections|].
    intros r c' Hr Hc'.
    assert (Hin' : In c' (unique_collections df))
      by (apply In_unique_collections; now exists r).
    destruct (unique_collections df) as [|x l]; [contradiction|].
    simpl in Hs. injection Hs as ->.
    destruct Hin' as [<-|Hin'].
    + destruct (String.leb_total c c) as [H|H]; exact H.
    + inversion S as [|? ? _ Hx]; subst. rewrite Forall_forall in Hx.
      specialize (Hx c' Hin'). unfold String.ltb in Hx. unfold String.leb.
      destruct (String.compare c c'); auto; discriminate.
  - unfold selectbox. split.
    + intros Hs r Hr. destruct (collection r) as [c|] eqn:E; [|reflexivity].
      assert (Hin : In c (unique_collections df))
        by (apply In_unique_collections; now exists r).
      destruct (unique_collections df); [contradiction | discriminate].
    + intros H. destruct (unique_collections df) as [|c l] eqn:E; [reflexivity|].
      assert (Hin : In c (unique_collections df)) by (rewrite E; now left).
      apply In_unique_collections in Hin. destruct Hin as (r & Hr & Hc).
      rewrite (H r Hr) in Hc. discriminate.
Qed.

Lemma selectbox_default_least_witness :
  selectbox (unique_collections
               (dataframe [ mk_record "B" "/bil/data/b0/k" 1 None;
                            mk_record "A" "/bil/data/3f/x" 3 None ])) 0
  = Some "3f"%string
  /\ String.leb "3f" "b0" = true.
Proof.
  split; [reflexivity|].
  refine (proj2 (proj1 (selectbox_default_least
            (dataframe [ mk_record "B" "/bil/data/b0/k" 1 None;
                         mk_record "A" "/bil/data/3f/x" 3 None ]))
            "3f"%string eq_refl)
          (add_columns (mk_record "B" "/bil/data/b0/k" 1 None)) "b0"%string _ eq_refl).
  now left.
Defined.

End OrderMore.

(** ** The run, step by step *)

Section RunMore.
Local Open Scope string_scope.

Ltac unfold_app :=
  unfold rendered, raised, app, App.try_except, try_body, except_handler,
    App.bind, App.call, App.draw, App.raise, App.ret,
    raise_for_status, run_stage in *.

Ltac by_stage w s :=
  let E := fresh "E" in destruct (raises w s) eqn:E.

Ltac by_load w :=
  let Eg := fresh "Eget" in
  let Es := fresh "Estatus" in
  let Ej := fresh "Ejson" in
  destruct (requests_get w) as [?|r] eqn:Eg;
  [| destruct ((400 <=? status_code r) && (status_code r <? 600))%Z eqn:Es;
     [| destruct (json w (body r)) as [?|data] eqn:Ej ] ].

Ltac by_stages w :=
  by_stage w DataFrame_30; [| by_stage w collection_37;
  [| by_stage w pretty_size_40; [| by_stage w sort_values_43;
  [| by_stage w preview_46; [| by_stage w unique_61;
  [| by_stage w filtered_66; [| by_stage w pie_select_77;
  [| by_stage w pie_positive_78; [| by_stage w plot_80 ]]]]]]]]].




(** X12: the chart is drawn exactly in the runs in which nothing raises,
    and such a run shows two tables and one selector and no error. *)
Theorem chart_iff_no_exception (w : world) :
  (existsb is_chart (rendered w) = true <-> ~ raised w)
  /\ (~ raised w ->
      List.length (filter is_table (rendered w)) = 2%nat
      /\ List.length (filter is_chart (rendered w)) = 1%nat
      /\ existsb is_error (rendered w) = false).
Proof.
  assert (H : ~ raised w ->
              existsb is_chart (rendered w) = true
              /\ List.length (filter is_table (rendered w)) = 2%nat
              /\ List.length (filter is_chart (rendered w)) = 1%nat
              /\ existsb is_error (rendered w) = false).
  { intros Hn. unfold_app.
    by_load w; try (elim Hn; eexists; eexists; reflexivity).
    by_stages w; try (elim Hn; eexists; eexists; reflexivity).
    now repeat split. }
  split; [split|].
  - intros Hc Hr. destruct (raised_anywhere Hr) as (_ & Hno & _). congruence.
  - intros Hn. now apply H.
  - intros Hn. now apply H.
Qed.

Lemma chart_iff_no_exception_witness :
  ~ raised world_scenario
  /\ List.length (filter is_table (rendered world_scenario)) = 2%nat.
Proof.
  assert (Hn : ~ raised world_scenario).
  { apply (proj1 (chart_iff_no_exception world_scenario)). reflexivity. }
  split; [exact Hn|].
  exact (proj1 (proj2 (chart_iff_no_exception world_scenario) Hn)).
Defined.

(** X13: a failed fetch is reported with its own message and the body is
    never parsed: a network error shows the text of the exception, and a
    response is an error exactly for the statuses 400 to 599, shown as
    ["<status> Client Error: ..."] below 500 and ["<status> Server Error:
    ..."] from 500 on; any other status goes on to the parse. *)
Theorem fetch_failure_message (w : world) :
  (forall e, requests_get w = inl e ->
     rendered w = (preamble w
                   ++ [st_error ("Failed to load or process data: " ++ message_of e)])%list)
  /\ (forall r, requests_get w = inr r ->
        ((400 <= status_code r < 600)%Z ->
           rendered w = (preamble w
                         ++ [st_error ("Failed to load or process data: "
                                       ++ http_error_msg r)])%list)
        /\ (~ (400 <= status_code r < 600)%Z ->
            forall e, json w (body r) = inl e ->
              rendered w = (preamble w
                            ++ [st_error ("Failed to load or process data: "
                                          ++ message_of e)])%list)).
Proof.
  split.
  - intros e He. unfold_app. now rewrite He.
  - intros r Hr. split.
    + intros Hs. unfold_app. rewrite Hr.
      replace ((400 <=? status_code r) && (status_code r <? 600))%Z with true
        by (symmetry; apply andb_true_iff; lia).
      reflexivity.
    + intros Hs e He. unfold_app. rewrite Hr.
      replace ((400 <=? status_code r) && (status_code r <? 600))%Z with false
        by (symmetry; apply andb_false_iff; lia).
      now rewrite He.
Qed.

Lemma fetch_failure_message_witness :
  rendered world_http_500
  = (preamble world_http_500
     ++ [st_error ("Failed to load or process data: "
                   ++ "500 Server Error: Internal Server Error for url: " ++ URL)])%list.
Proof.
  refine (proj1 (proj2 (fetch_failure_message world_http_500) _ eq_refl) _).
  simpl. lia.
Defined.

(** X14: of several steps that would raise, the first in the source is the
    one reported: when fetch and parse succeed and stage [s] raises [e]
    while no stage on an earlier line raises, the error message is that of
    [e], and it is the last element shown. *)
Theorem first_failure_reported (w : world) (r : response) (data : list record)
    (s : stage) (e : exception) :
  requests_get w = inr r ->
  ~ (400 <= status_code r < 600)%Z ->
  json w (body r) = inr data ->
  raises w s = Some e ->
  (forall s', stage_line s' < stage_line s -> raises w s' = None) ->
  last (rendered w) (st_title EmptyString)
  = st_error ("Failed to load or process data: " ++ message_of e).
Proof.
  intros Hr Hs Hj He Hb. unfold_app. rewrite Hr.
  replace ((400 <=? status_code r) && (status_code r <? 600))%Z with false
    by (symmetry; apply andb_false_iff; lia).
  rewrite Hj.
  destruct s;
    repeat match goal with
           | |- context [raises w ?s'] =>
               first [ rewrite (Hb s') by (simpl; lia) | rewrite He ]
           end;
    reflexivity.
Qed.

Lemma first_failure_reported_witness :
  last (rendered world_late_error) (st_title EmptyString)
  = st_error ("Failed to load or process data: "
              ++ "'>' not supported between instances of 'str' and 'int'").
Proof.
  refine (@first_failure_reported world_late_error _ _ pie_positive_78 _
            eq_refl _ eq_refl eq_refl _).
  - simpl. lia.
  - intros s' H. destruct s'; try reflexivity. simpl in H. lia.
Defined.

(** X15: when fetch and parse succeed and no stage ahead of line 55 raises,
    the full table of all records is drawn right below its heading,
    whatever happens later in the run. *)
Theorem full_table_drawn (w : world) (r : response) (data : list record) :
  requests_get w = inr r ->
  ~ (400 <= status_code r < 600)%Z ->
  json w (body r) = inr data ->
  (forall s, before_first_table s = true -> raises w s = None) ->
  nth_error (rendered w) 4
  = Some (st_subheader "Preview: Sorted by Number of Files (Descending)")
  /\ nth_error (rendered w) 5
     = Some (st_dataframe (preview_df (argsort w) (dataframe data))).
Proof.
  intros Hr Hs Hj Hb. unfold_app. rewrite Hr.
  replace ((400 <=? status_code r) && (status_code r <? 600))%Z with false
    by (symmetry; apply andb_false_iff; lia).
  rewrite Hj.
  rewrite (Hb DataFrame_30), (Hb collection_37), (Hb pretty_size_40),
    (Hb sort_values_43), (Hb preview_46) by reflexivity.
  by_stage w unique_61; [now split|].
  by_stage w filtered_66; [now split|].
  by_stage w pie_select_77; [now split|].
  by_stage w pie_positive_78; [now split|].
  by_stage w plot_80; now split.
Qed.

Lemma full_table_drawn_witness :
  nth_error (rendered world_late_error) 5
  = Some (st_dataframe [mk_view (Some "3f") "A1" 10 (Some "1.0 GiB")]).
Proof.
  refine (proj2 (@full_table_drawn world_late_error _ _ eq_refl _ eq_refl _)).
  - simpl. lia.
  - intros s H. destruct s; try reflexivity; discriminate H.
Defined.

End RunMore.

(** ** Sizes, once more *)

Section SizeMore.
Import Humanize HumanizeFacts.
Local Open Scope Z_scope.

Lemma size_parts_small (v t : Z) (k : nat) :
  v < base -> size_parts v t k -> k = 0%nat /\ t = 10 * v.
Proof.
  intros Hv [(-> & _ & ->) | (Hk & Hlow & _)]; [now split|].
  assert (base ^ 1 <= base ^ Z.of_nat k)
    by (apply Z.pow_le_mono_r; unfold base; lia).
  rewrite Z.pow_1_r in *. lia.
Qed.

(** X16: a size below 1024 is printed exactly, as a count of bytes:
    reading the string back gives the size itself, in the unit of one byte. *)
Theorem naturalsize_bytes_exact (v : Z) :
  0 <= v < 1024 ->
  parse_size (naturalsize v) = Some (10 * v, 0%nat)
  /\ magnitude_tenths (naturalsize v) = Some (10 * v).
Proof.
  intros [H0 H1].
  destruct (parse_size_naturalsize H0) as (t & k & E & P).
  destruct (size_parts_small H1 P) as [-> ->].
  split; [exact E|]. unfold magnitude_tenths. rewrite E.
  f_equal. change (Z.of_nat 0) with 0. rewrite Z.pow_0_r. lia.
Qed.

Lemma naturalsize_bytes_exact_witness :
  magnitude_tenths (naturalsize 1023) = Some 10230.
Proof.
  exact (proj2 (@naturalsize_bytes_exact 1023 ltac:(lia))).
Defined.



End SizeMore.

(** ** Rows stay whole *)

Section RowsMore.
Import Pandas PandasFacts.

(** X18: whatever [argsort] returns, sorting and filtering move whole rows:
    every row of the full table and of a filtered table shows the
    identifier and file count of one input record together with the
    collection code extracted from that record's path and the size
    formatted from that record's byte size. *)
Theorem rows_stay_whole (argsort : list Z -> list nat) (data : list record)
    (selected : option string) (v : view_row) :
  In v (preview_df argsort (dataframe data))
  \/ In v (filtered_df (dataframe data) selected) ->
  exists r, In r data
            /\ Brain_ID v = bildid r
            /\ Number_of_Files v = number_of_files r
            /\ Collection v = extract_collection (bildirectory r)
            /\ Size v = pretty_size_of (size r).
Proof.
  assert (H : forall x, In x (dataframe data) ->
                        exists r, In r data /\ x = add_columns r).
  { intros x Hx. unfold dataframe in Hx. apply in_map_iff in Hx.
    destruct Hx as (r & <- & Hr). now exists r. }
  intros [Hv|Hv].
  - unfold preview_df, df_sorted, sort_values_descending in Hv.
    apply in_map_iff in Hv. destruct Hv as (x & <- & Hx).
    apply take_In in Hx. destruct (H x Hx) as (r & Hr & ->).
    exists r. now repeat split.
  - unfold filtered_df in Hv. apply in_map_iff in Hv.
    destruct Hv as (x & <- & Hx).
    rewrite in_collection_filter, filter_In in Hx. destruct Hx as [Hx _].
    destruct (H x Hx) as (r & Hr & ->). exists r. now repeat split.
Qed.

Lemma rows_stay_whole_witness :
  exists r, In r scenario
            /\ Collection (mk_view (Some "3f"%string) "A2" 0 None)
               = extract_collection (bildirectory r).
Proof.
  destruct (@rows_stay_whole (argsort_insertion Z.leb) scenario
              (Some "3f"%string) (mk_view (Some "3f"%string) "A2" 0 None))
    as (r & Hr & _ & _ & Hc & _).
  - right. right. now left.
  - now exists r.
Defined.

Lemma distinct_keys_kept (A B : Type) (key : A -> B) (keep : A -> bool) :
  forall rows : list A,
    NoDup (map key rows) -> NoDup (map key (filter keep rows)).
Proof.
  intros rows. induction rows as [|x rows IH]; simpl; intros H; [constructor|].
  inversion H as [|? ? Hx Hl]; subst.
  destruct (keep x); simpl; [|now apply IH].
  constructor; [|now apply IH].
  intros Hin. apply Hx. apply in_map_iff in Hin.
  destruct Hin as (y & E & Hy). apply filter_In in Hy.
  apply in_map_iff. exists y. tauto.
Qed.

(** X19: when the identifiers of the inventory are pairwise distinct, so
    are the labels of the legend, and there are as many labels as wedges. *)
Theorem labels_distinct (argsort : list Z -> list nat) (df : list row)
    (selected : option string) :
  argsort_contract argsort ->
  NoDup (map (fun r => bildid (source r)) df) ->
  NoDup (labels (pie_data argsort df selected))
  /\ List.length (labels (pie_data argsort df selected))
     = List.length (pie_data argsort df selected).
Proof.
  intros Hc Hn. split; [|apply length_map].
  pose proof (pie_data_Permutation df selected Hc) as HP.
  unfold labels.
  apply (Permutation_NoDup
           (l := map fst (map (fun r => (bildid (source r), file_count r))
                   (filter (fun r => eq_scalar (collection r) selected
                                     && (0 <? file_count r)%Z) df)))).
  - apply Permutation_map. now symmetry.
  - rewrite map_map. simpl. now apply distinct_keys_kept.
Qed.

Lemma labels_distinct_witness :
  NoDup (labels (pie_data (argsort_insertion Z.leb) (dataframe scenario)
                          (Some "3f"%string))).
Proof.
  refine (proj1 (@labels_distinct (argsort_insertion Z.leb) (dataframe scenario)
                   (Some "3f"%string) argsort_leb_contract _)).
  constructor; [intros [H|[]]; discriminate H|].
  constructor; [intros []|constructor].
Defined.

End RowsMore.
